(** * sbpl_interface: the MoveIt environment of the lattice planner

    A shallow embedding of [environment_chain3d_moveit.cpp]: the motion
    validity check ([getJointDistanceIntegerMax],
    [interpolateAndCollisionCheck]), the shortcutter ([attemptShortcut]),
    trajectory reconstruction ([populateTrajectoryFromStateIDSequence]), the
    end-effector heuristic ([getEndEffectorHeuristic]) and the request setup
    ([setupForMotionPlan]).

    C++ [int] and [unsigned int] are integers of [Z] with their range written
    out, [double] is IEEE-754 binary64 in the executable specification of the
    standard library ([spec_float]), a [std::vector] is a [list].  What the
    language leaves undefined (an index outside a vector, a [double] that
    does not fit the [int] it is converted to, signed overflow) is a [Fault];
    the one unbounded loop runs on fuel.  The robot model, the collision
    checker and the kinematics are collaborators behind an interface. *)

From Stdlib Require Import String.
From Stdlib Require Import ZArith List Bool Lia.
From Stdlib Require Import Floats.SpecFloat.
Import ListNotations.
Open Scope Z_scope.

(** ** Results of a run *)

Inductive fault : Type :=
| OutOfBounds        (* operator[], front() or back() outside the vector *)
| NotRepresentable   (* floating-integral conversion outside the range of int *)
| Overflow           (* signed integer overflow *)
| NullPointer        (* a member pointer used before the setup assigned it *)
| AssertionFailed.   (* assert(...) *)

Inductive res (A : Type) : Type :=
| Ret (a : A)
| Fault (f : fault)
| Timeout.           (* the fuel of [while (1)] ran out *)

Arguments Ret {A} a.
Arguments Fault {A} f.
Arguments Timeout {A}.

Definition bind {A B : Type} (m : res A) (k : A -> res B) : res B :=
  match m with
  | Ret a => k a
  | Fault f => Fault f
  | Timeout => Timeout
  end.

Declare Scope res_scope.
Delimit Scope res_scope with res.
Notation "x <- m ;; k" := (bind m (fun x => k))
  (at level 61, m at next level, right associativity) : res_scope.
Notation "' p <- m ;; k" := (bind m (fun x => let p := x in k))
  (at level 61, p pattern, m at next level, right associativity) : res_scope.
Open Scope res_scope.

(** ** Machine integers *)

Definition INT_MAX : Z := 2147483647.
Definition INT_MIN : Z := -2147483648.
Definition UINT_MOD : Z := 4294967296.

Definition in_int (z : Z) : bool := (INT_MIN <=? z) && (z <=? INT_MAX).

(** [unsigned int] arithmetic is modulo 2^32. *)
Definition u32 (z : Z) : Z := z mod UINT_MOD.

(** The cast [(int) v.size()] keeps the low 32 bits, read as signed. *)
Definition to_int (z : Z) : Z :=
  let r := z mod UINT_MOD in if r <=? INT_MAX then r else r - UINT_MOD.

(** The result of a signed operation: overflow is undefined. *)
Definition int_arith (z : Z) : res Z :=
  if in_int z then Ret z else Fault Overflow.

Definition deref {A : Type} (p : option A) : res A :=
  match p with
  | Some a => Ret a
  | None => Fault NullPointer
  end.

(** [v[i]] for an index already converted to [Z]. *)
Definition index {A : Type} (v : list A) (i : Z) : res A :=
  if (0 <=? i) && (i <? Z.of_nat (length v)) then
    match nth_error v (Z.to_nat i) with
    | Some a => Ret a
    | None => Fault OutOfBounds
    end
  else Fault OutOfBounds.

Definition front {A : Type} (v : list A) : res A :=
  match v with
  | [] => Fault OutOfBounds
  | a :: _ => Ret a
  end.

Fixpoint back {A : Type} (v : list A) : res A :=
  match v with
  | [] => Fault OutOfBounds
  | [a] => Ret a
  | _ :: w => back w
  end.

(** ** Doubles *)

Definition prec : Z := 53.
Definition emax : Z := 1024.

Definition double : Type := spec_float.

Definition dadd : double -> double -> double := SFadd prec emax.
Definition dsub : double -> double -> double := SFsub prec emax.
Definition dmul : double -> double -> double := SFmul prec emax.
Definition ddiv : double -> double -> double := SFdiv prec emax.
Definition dsqrt : double -> double := SFsqrt prec emax.
Definition fabs : double -> double := SFabs.

(** The double of value [m * 2^e], rounded to nearest even. *)
Definition dbl (m e : Z) : double := binary_normalize prec emax m e false.

(** [static_cast<double>(i)] for an [int] (exact: an int has 32 bits). *)
Definition double_of_int (z : Z) : double := dbl z 0.

(** The integer part of a finite double, towards zero. *)
Definition trunc_Z (x : double) : option Z :=
  match x with
  | S754_zero _ => Some 0
  | S754_finite s m e => Some (cond_Zopp s (Z.shiftl (Zpos m) e))
  | S754_infinity _ | S754_nan => None
  end.

(** The conversion of a double to [int]: the value truncated, undefined when
    the truncated value is not an [int]. *)
Definition int_of_double (x : double) : res Z :=
  match trunc_Z x with
  | Some z => if in_int z then Ret z else Fault NotRepresentable
  | None => Fault NotRepresentable
  end.

(** [floor]: the largest integral double not above [x]. *)
Definition floor (x : double) : double :=
  match x with
  | S754_finite s m e =>
      if 0 <=? e then x
      else binary_normalize prec emax
             (Z.shiftl (cond_Zopp s (Zpos m)) e) 0 s
  | _ => x
  end.

Definition dltb : double -> double -> bool := SFltb.

(** ** Data *)

(** [trajectory_msgs::JointTrajectoryPoint]; a default-constructed point has
    empty vectors and a zero duration. *)
Record JointTrajectoryPoint : Type := {
  positions : list double;
  velocities : list double;
  accelerations : list double;
  effort : list double;
  time_from_start : Z * Z
}.

(** [trajectory_msgs::JointTrajectory], without its header. *)
Record JointTrajectory : Type := {
  joint_names : list string;
  points : list JointTrajectoryPoint
}.

(** [JointTrajectoryPoint jtp; jtp.positions = v;] *)
Definition jtp_of_positions (v : list double) : JointTrajectoryPoint :=
  {| positions := v; velocities := []; accelerations := []; effort := [];
     time_from_start := (0, 0) |}.

(** Modelled from the spec: the motion primitive classes are declared in
    headers of the package that this file only includes.  A primitive is "a
    named joint-space delta, or a goal-directed snap delta bounded by a
    threshold"; the setup only stores them. *)
Inductive MotionPrimitive : Type :=
| ConfiguredPrimitive (action : list double)
| SnapToJointMotionPrimitive (goal : list double) (thresh : double).

(** Modelled from the spec: [SBPLPlanningParams] is declared in a header of
    the package that this file only includes.  The spec lists its options
    (interpolation resolution, grid resolution, origin and extents, cost per
    cell and per meter, the BFS switch, the goal-snap primitive and its
    threshold); the fields carry the names this file reads them by.
    [cost_per_cell] is an [int]; [cost_per_meter] enters a product of doubles
    only and is held as the double it is converted to. *)
Record SBPLPlanningParams : Type := {
  prims : list MotionPrimitive;
  use_joint_snap : bool;
  joint_snap_thresh : double;
  use_bfs : bool;
  field_x : double;
  field_y : double;
  field_z : double;
  field_resolution : double;
  field_origin_x : double;
  field_origin_y : double;
  field_origin_z : double;
  cost_per_cell : Z;
  cost_per_meter : double;
  interpolation_distance : double
}.

(** Modelled from the spec: the hash entry [EnvChain3DHashEntry] is declared
    in a header of the package that this file only includes.  The spec gives
    it a unique integer ID, the discrete lattice coordinates, the continuous
    joint-angle vector and the discrete end-effector cell. *)
Record EnvChain3DHashEntry : Type := {
  stateID : Z;
  coord : list Z;
  angles : list double;
  xyz : Z * Z * Z
}.

(** Modelled from the spec: [addHashEntry] belongs to the hash table, whose
    code this file only calls.  It "always allocates a new entry with a fresh
    ID"; IDs index [state_ID_to_coord_table_], so the fresh ID is the size of
    the table.  The result is the table and the new entry. *)
Definition addHashEntry (state_ID_to_coord_table_ : list EnvChain3DHashEntry)
    (coord : list Z) (angles : list double) (xyz : Z * Z * Z)
    : list EnvChain3DHashEntry * EnvChain3DHashEntry :=
  let entry := {| stateID := Z.of_nat (length state_ID_to_coord_table_);
                  coord := coord; angles := angles; xyz := xyz |} in
  (state_ID_to_coord_table_ ++ [entry], entry).

(** [moveit_msgs::Constraints], as far as the setup reads it. *)
Record JointConstraint : Type := {
  joint_name : string;
  position : double
}.

Record PositionConstraint : Type := {
  target_point_offset : double * double * double
}.

Record Constraints : Type := {
  joint_constraints : list JointConstraint;
  position_constraints : list PositionConstraint
}.

(** [moveit_msgs::MoveItErrorCodes]: the values this file assigns, and any
    other value the response held before. *)
Inductive MoveItErrorCodes : Type :=
| START_STATE_IN_COLLISION
| GOAL_IN_COLLISION
| INVALID_ROBOT_STATE
| INVALID_GOAL_CONSTRAINTS
| other_error_code (val : Z).

(** ** The collaborators

    The robot state of MoveIt, the planning scene with its collision checker,
    the [angles] package, the lattice of the base class and the 3D
    breadth-first search are used through these operations only. *)
Class Collaborators : Type := {
  RobotState : Type;
  RobotStateMsg : Type;
  BFS_3D : Type;
  (** [planning_scene->getCurrentState()] *)
  getCurrentState : RobotState;
  (** [moveit::core::robotStateMsgToRobotState(msg, rs)] *)
  robotStateMsgToRobotState : RobotStateMsg -> RobotState -> RobotState;
  (** [rs->setJointGroupPositions(planning_group_, v)] *)
  setJointGroupPositions : RobotState -> list double -> RobotState;
  (** [rs->setJointPositions(name, &position)] *)
  setJointPositions : RobotState -> string -> double -> RobotState;
  (** [rs->copyJointGroupPositions(planning_group_, v)] *)
  copyJointGroupPositions : RobotState -> list double;
  (** [joint_model_group_->getActiveJointModelNames()] *)
  getActiveJointModelNames : list string;
  (** [from->interpolate(to, t, out); out.update()], [out] in and out *)
  interpolate : RobotState -> RobotState -> double -> RobotState -> RobotState;
  (** [planning_scene_->checkCollision(req, res, rs); res.collision] *)
  checkCollision : RobotState -> bool;
  (** [angles::shortest_angular_distance(from, to)] *)
  shortest_angular_distance : double -> double -> double;
  (** the translation of [rs->getGlobalLinkTransform(tip_link_model_)] *)
  getGlobalLinkTransform : RobotState -> double * double * double;
  (** [convertJointAnglesToCoord(angles, coord)] of the base class *)
  convertJointAnglesToCoord : list double -> list Z;
  (** the distance field filled from the world, the [BFS_3D] over it and its
      [run] from the goal cell *)
  BFS_3D_run : SBPLPlanningParams -> Z * Z * Z -> BFS_3D;
  (** [bfs_->getDistance(x, y, z)] *)
  getDistance : BFS_3D -> Z -> Z -> Z -> Z
}.

(** The parts of [moveit_msgs::MotionPlanRequest] that the setup reads. *)
Record MotionPlanRequest {C : Collaborators} : Type := {
  start_state : RobotStateMsg;
  goal_constraints : list Constraints;
  path_constraints : Constraints
}.

(** The members of [EnvironmentChain3DMoveIt] that the functions below read
    or write. *)
Record Environment {C : Collaborators} : Type := {
  params_ : SBPLPlanningParams;
  state_ : RobotState;
  prims_ : list MotionPrimitive;
  state_ID_to_coord_table_ : list EnvChain3DHashEntry;
  start_ : option EnvChain3DHashEntry;
  goal_ : option EnvChain3DHashEntry;
  bfs_ : option BFS_3D;
  goal_constraint_set_ : option Constraints;
  path_constraint_set_ : option Constraints
}.

(** ** The motion validity check *)

Section MotionValidity.
Context {C : Collaborators}.

(** The loop of [getJointDistanceIntegerMax], [i] the joint index. *)
Fixpoint getJointDistanceIntegerMax_loop (i : Z) (angles1 angles2 : list double)
    (delta : double) (max_dist : Z) : res Z :=
  match angles1, angles2 with
  | a1 :: rest1, a2 :: rest2 =>
      dist0 <- int_of_double (floor (ddiv (fabs (dsub a2 a1)) delta)) ;;
      dist <- (if (i =? 4) || (i =? 6)
               then (* Hack -- continuous joints *)
                 int_of_double
                   (floor (ddiv (fabs (shortest_angular_distance a1 a2)) delta))
               else Ret dist0) ;;
      getJointDistanceIntegerMax_loop (i + 1) rest1 rest2 delta
        (if max_dist <? dist then dist else max_dist)
  | _, _ => Ret max_dist
  end.

Definition getJointDistanceIntegerMax (angles1 angles2 : list double)
    (delta : double) : res Z :=
  if negb (Nat.eqb (length angles1) (length angles2)) then
    (* "Angles aren't the same size!" *)
    Ret INT_MAX
  else getJointDistanceIntegerMax_loop 0 angles1 angles2 delta 0.

(** The fraction of sample [i]: [(1.0/static_cast<double>(maximum_moves))*i]. *)
Definition fraction (maximum_moves i : Z) : double :=
  dmul (ddiv (dbl 1 0) (double_of_int maximum_moves)) (double_of_int i).

(** The [for] loop of [interpolateAndCollisionCheck] from [i] on, [n] the
    iterations left. *)
Fixpoint interpolate_loop (rs_1 rs_2 : RobotState) (maximum_moves : Z)
    (n : nat) (i : Z) (rs_temp : RobotState)
    (state_values : list (list double)) : bool * list (list double) :=
  match n with
  | O => (true, state_values)
  | S n' =>
      let rs_temp := interpolate rs_1 rs_2 (fraction maximum_moves i) rs_temp in
      (* We already checked rs_2, don't check again *)
      if negb (i =? maximum_moves - 1) && checkCollision rs_temp then
        (false, state_values)
      else
        interpolate_loop rs_1 rs_2 maximum_moves n' (i + 1) rs_temp
          (state_values ++ [copyJointGroupPositions rs_temp])
  end.

(** [interpolateAndCollisionCheck]: the result and [state_values]. *)
Definition interpolateAndCollisionCheck (env : Environment)
    (angles1 angles2 : list double) : res (bool * list (list double)) :=
  let rs_1 := setJointGroupPositions (state_ env) angles1 in
  let rs_2 := setJointGroupPositions (state_ env) angles2 in
  let rs_temp := setJointGroupPositions (state_ env) angles1 in
  (* check end pose for collision before bothering with interpolation *)
  if checkCollision rs_2 then Ret (false, [])
  else
    maximum_moves <-
      getJointDistanceIntegerMax angles1 angles2
        (interpolation_distance (params_ env)) ;;
    Ret (interpolate_loop rs_1 rs_2 maximum_moves
           (Z.to_nat (maximum_moves - 1)) 1 rs_temp []).

End MotionValidity.

(** ** The shortcutter *)

(** The locals of [attemptShortcut] that live across iterations, and
    [traj_out.points]. *)
Record shortcut_state : Type := {
  last_point_ind : Z;
  current_point_ind : Z;
  last_good_start_ind : Z;
  last_good_end_ind : Z;
  last_good_segment_values : list (list double);
  out_points : list JointTrajectoryPoint
}.

(** The copy loop [for (i...) { jtp.positions = values[i]; push_back(jtp); }] *)
Definition push_segment (out : list JointTrajectoryPoint)
    (values : list (list double)) : list JointTrajectoryPoint :=
  out ++ map jtp_of_positions values.

(** The branch taken when the motion is valid: keep going. *)
Definition shortcut_extend (st : shortcut_state)
    (segment_values : list (list double)) : shortcut_state :=
  {| last_point_ind := last_point_ind st;
     current_point_ind := u32 (current_point_ind st + 1);
     last_good_start_ind := last_point_ind st;
     last_good_end_ind := current_point_ind st;
     last_good_segment_values := segment_values;
     out_points := out_points st |}.

(** The branch taken when the motion is not valid: copy the last good
    segment out and restart from its end. *)
Definition shortcut_commit (traj_in : JointTrajectory) (st : shortcut_state)
    : res shortcut_state :=
  out <-
    (if u32 (last_good_end_ind st - last_good_start_ind st) =? 1 then
       (* start and end are adjacent, copy the end in *)
       p <- index (points traj_in) (last_good_end_ind st) ;;
       Ret (out_points st ++ [p])
     else
       (* have interpolated points to copy in *)
       Ret (push_segment (out_points st) (last_good_segment_values st))) ;;
  Ret {| last_point_ind := last_good_end_ind st;
         current_point_ind := u32 (last_good_end_ind st + 1);
         last_good_start_ind := last_good_end_ind st;
         last_good_end_ind := last_good_end_ind st;
         last_good_segment_values := [];
         out_points := out |}.

(** The end of an iteration: [break] with the final points once the current
    index has reached the size of the input. *)
Definition shortcut_finish (traj_in : JointTrajectory) (st : shortcut_state)
    : res (shortcut_state + list JointTrajectoryPoint) :=
  if Z.of_nat (length (points traj_in)) <=? current_point_ind st then
    (* done parsing trajectory, clean up *)
    let out :=
      if 0 <? Z.of_nat (length (last_good_segment_values st))
      then push_segment (out_points st) (last_good_segment_values st)
      else out_points st in
    last <- back (points traj_in) ;;
    Ret (inr (out ++ [last]))
  else Ret (inl st).

Section Shortcut.
Context {C : Collaborators}.
Variable env : Environment.
Variable traj_in : JointTrajectory.

(** One iteration of [while (1)]: the next state, or the final
    [traj_out.points] at [break]. *)
Definition shortcut_body (st : shortcut_state)
    : res (shortcut_state + list JointTrajectoryPoint) :=
  start_point <- index (points traj_in) (last_point_ind st) ;;
  end_point <- index (points traj_in) (current_point_ind st) ;;
  '(valid, segment_values) <-
     interpolateAndCollisionCheck env (positions start_point) (positions end_point) ;;
  st1 <- (if valid then Ret (shortcut_extend st segment_values)
          else shortcut_commit traj_in st) ;;
  shortcut_finish traj_in st1.

Fixpoint shortcut_loop (fuel : nat) (st : shortcut_state)
    : res (list JointTrajectoryPoint) :=
  match fuel with
  | O => Timeout
  | S fuel' =>
      r <- shortcut_body st ;;
      match r with
      | inl st' => shortcut_loop fuel' st'
      | inr out => Ret out
      end
  end.

(** [attemptShortcut(traj_in, traj_out)]: the value of [traj_out] on return. *)
Definition attemptShortcut (fuel : nat) : res JointTrajectory :=
  if Nat.eqb (length (points traj_in)) 1 then Ret traj_in
  else
    first <- front (points traj_in) ;;
    pts <- shortcut_loop fuel
             {| last_point_ind := 0;
                current_point_ind := 1;
                last_good_start_ind := 0;
                last_good_end_ind := 1;
                last_good_segment_values := [];
                out_points := [first] |} ;;
    Ret {| joint_names := joint_names traj_in; points := pts |}.

End Shortcut.

(** ** Trajectory reconstruction *)

(** [points.resize(n)]: the first [n] points kept, default points appended. *)
Definition resize (n : nat) (pts : list JointTrajectoryPoint)
    : list JointTrajectoryPoint :=
  firstn n pts ++ repeat (jtp_of_positions []) (n - length pts).

Definition set_positions (p : JointTrajectoryPoint) (v : list double)
    : JointTrajectoryPoint :=
  {| positions := v; velocities := velocities p;
     accelerations := accelerations p; effort := effort p;
     time_from_start := time_from_start p |}.

(** The loop of [populateTrajectoryFromStateIDSequence] over the IDs left and
    the points they fill: the result and the points. *)
Fixpoint populate_loop (table : list EnvChain3DHashEntry) (state_ids : list Z)
    (pts : list JointTrajectoryPoint) : res (bool * list JointTrajectoryPoint) :=
  match state_ids, pts with
  | id :: ids, p :: rest =>
      bound <- int_arith (to_int (Z.of_nat (length table)) - 1) ;;
      if bound <? id then Ret (false, p :: rest)
      else
        entry <- index table id ;;
        '(ok, rest') <- populate_loop table ids rest ;;
        Ret (ok, set_positions p (angles entry) :: rest')
  | _, _ => Ret (true, pts)
  end.

Section Reconstruction.
Context {C : Collaborators}.

(** [populateTrajectoryFromStateIDSequence(state_ids, traj)]: the result and
    [traj] on return. *)
Definition populateTrajectoryFromStateIDSequence (env : Environment)
    (state_ids : list Z) (traj : JointTrajectory) : res (bool * JointTrajectory) :=
  '(ok, pts) <- populate_loop (state_ID_to_coord_table_ env) state_ids
                  (resize (length state_ids) (points traj)) ;;
  Ret (ok, {| joint_names := getActiveJointModelNames; points := pts |}).

End Reconstruction.

(** ** Discretization and heuristic *)

Definition getEuclideanDistance (x1 y1 z1 x2 y2 z2 : double) : double :=
  dsqrt (dadd (dadd (dmul (dsub x1 x2) (dsub x1 x2))
                    (dmul (dsub y1 y2) (dsub y1 y2)))
              (dmul (dsub z1 z2) (dsub z1 z2))).

(** [continuousXYZtoDiscreteXYZ]: the result and the cell [(x, y, z)]. *)
Definition continuousXYZtoDiscreteXYZ (params_ : SBPLPlanningParams)
    (X Y Z : double) : res (bool * (BinNums.Z * BinNums.Z * BinNums.Z)) :=
  x <- int_of_double (ddiv (dsub X (field_origin_x params_)) (field_resolution params_)) ;;
  y <- int_of_double (ddiv (dsub Y (field_origin_y params_)) (field_resolution params_)) ;;
  z <- int_of_double (ddiv (dsub Z (field_origin_z params_)) (field_resolution params_)) ;;
  (* TODO: should we check limits of the field? *)
  Ret (true, (x, y, z)).

Section Heuristic.
Context {C : Collaborators}.

(** [getEndEffectorCoord(angles, xyz)]: the result, [xyz] and [state_]. *)
Definition getEndEffectorCoord (params_ : SBPLPlanningParams) (state_ : RobotState)
    (angles : list double) : res (bool * (Z * Z * Z) * RobotState) :=
  let state_ := setJointGroupPositions state_ angles in
  let '(px, py, pz) := getGlobalLinkTransform state_ in
  '(ok, xyz) <- continuousXYZtoDiscreteXYZ params_ px py pz ;;
  Ret (ok, xyz, state_).

Definition getEndEffectorHeuristic (env : Environment) (x y z : Z) : res Z :=
  if use_bfs (params_ env) then
    (* Return the BFS cost to goal *)
    bfs <- deref (bfs_ env) ;;
    int_arith (getDistance bfs x y z * cost_per_cell (params_ env))
  else
    (* Return euclidean distance to goal *)
    goal <- deref (goal_ env) ;;
    let '(gx, gy, gz) := xyz goal in
    let dist := getEuclideanDistance (double_of_int x) (double_of_int y) (double_of_int z)
                  (double_of_int gx) (double_of_int gy) (double_of_int gz) in
    int_of_double (dmul (dmul dist (field_resolution (params_ env)))
                        (cost_per_meter (params_ env))).

End Heuristic.

(** ** The setup of a planning request *)

Section Setup.
Context {C : Collaborators}.

Definition set_request (env : Environment) (params : SBPLPlanningParams)
    (state : RobotState) : Environment :=
  {| params_ := params; state_ := state; prims_ := prims_ env;
     state_ID_to_coord_table_ := state_ID_to_coord_table_ env;
     start_ := start_ env; goal_ := goal_ env; bfs_ := bfs_ env;
     goal_constraint_set_ := goal_constraint_set_ env;
     path_constraint_set_ := path_constraint_set_ env |}.

Definition set_state (env : Environment) (state : RobotState) : Environment :=
  set_request env (params_ env) state.

(** Modelled from the spec: [addMotionPrimitive] belongs to the base class,
    whose code this file only calls; it "appends to an ordered list". *)
Definition addMotionPrimitive (env : Environment) (prim : MotionPrimitive)
    : Environment :=
  {| params_ := params_ env; state_ := state_ env; prims_ := prims_ env ++ [prim];
     state_ID_to_coord_table_ := state_ID_to_coord_table_ env;
     start_ := start_ env; goal_ := goal_ env; bfs_ := bfs_ env;
     goal_constraint_set_ := goal_constraint_set_ env;
     path_constraint_set_ := path_constraint_set_ env |}.

Definition set_start (env : Environment)
    (r : list EnvChain3DHashEntry * EnvChain3DHashEntry) : Environment :=
  {| params_ := params_ env; state_ := state_ env; prims_ := prims_ env;
     state_ID_to_coord_table_ := fst r;
     start_ := Some (snd r); goal_ := goal_ env; bfs_ := bfs_ env;
     goal_constraint_set_ := goal_constraint_set_ env;
     path_constraint_set_ := path_constraint_set_ env |}.

(** The end of the setup: the search, both constraint sets and the goal entry. *)
Definition set_goal (env : Environment) (bfs : option BFS_3D)
    (goal_constraints path_constraints : Constraints)
    (r : list EnvChain3DHashEntry * EnvChain3DHashEntry) : Environment :=
  {| params_ := params_ env; state_ := state_ env; prims_ := prims_ env;
     state_ID_to_coord_table_ := fst r;
     start_ := start_ env; goal_ := Some (snd r); bfs_ := bfs;
     goal_constraint_set_ := Some goal_constraints;
     path_constraint_set_ := Some path_constraints |}.

(** The goal of the request: an early [return false] with the error code and
    the environment, or the goal data and the environment to go on with. *)
Definition setup_goal (env : Environment) (goal0 : Constraints)
    (mres : MoveItErrorCodes) (start_joint_values : list double)
    : res (bool * MoveItErrorCodes * Environment
           + list double * list Z * (Z * Z * Z) * Environment) :=
  if (0 <? Z.of_nat (length (joint_constraints goal0)))%Z then
    (* Check goal state (if any) for collisions *)
    if checkCollision (state_ env) then Ret (inl (false, GOAL_IN_COLLISION, env))
    else
      (* Collision free goal, generate the data we need for the planner *)
      let goal_joint_values := copyJointGroupPositions (state_ env) in
      let goal_coords := convertJointAnglesToCoord goal_joint_values in
      '(ok, goal_xyz, state) <-
         getEndEffectorCoord (params_ env) (state_ env) goal_joint_values ;;
      let env := set_state env state in
      if negb ok then
        (* "Bad goal pose" *)
        Ret (inl (false, INVALID_GOAL_CONSTRAINTS, env))
      else
        (* Planning in joint space -- should add a snap to joints primitive *)
        let env :=
          if use_joint_snap (params_ env) then
            addMotionPrimitive env
              (SnapToJointMotionPrimitive goal_joint_values
                 (joint_snap_thresh (params_ env)))
          else env in
        Ret (inr (goal_joint_values, goal_coords, goal_xyz, env))
  else
    (* "Goal does not have joint constraints." *)
    let goal_joint_values := repeat (S754_zero false) (length start_joint_values) in
    let goal_coords := repeat 0 (length start_joint_values) in
    match position_constraints goal0 with
    | pc :: _ =>
        let '(tx, ty, tz) := target_point_offset pc in
        '(_, goal_xyz) <- continuousXYZtoDiscreteXYZ (params_ env) tx ty tz ;;
        Ret (inr (goal_joint_values, goal_coords, goal_xyz, env))
    | [] =>
        (* "No joint or position constraints -- cannot plan!" *)
        Ret (inl (false, mres, env))
    end.

(** [setupForMotionPlan(planning_scene, mreq, mres, params)]: the result,
    [mres.error_code.val] and the environment on return. *)
Definition setupForMotionPlan (env : Environment) (mreq : MotionPlanRequest)
    (mres : MoveItErrorCodes) (params : SBPLPlanningParams)
    : res (bool * MoveItErrorCodes * Environment) :=
  (* Setup data structs; local copy of current state *)
  let state := robotStateMsgToRobotState (start_state mreq) getCurrentState in
  let env := set_request env params state in
  let start_joint_values := copyJointGroupPositions state in
  (* Check start state for collision *)
  if checkCollision state then Ret (false, START_STATE_IN_COLLISION, env)
  else
    (* Setup basic motion primitives *)
    let env := fold_left addMotionPrimitive (prims (params_ env)) env in
    (* Setup start position in discrete space *)
    let start_coords := convertJointAnglesToCoord start_joint_values in
    '(ok, start_xyz, state) <-
       getEndEffectorCoord (params_ env) (state_ env) start_joint_values ;;
    let env := set_state env state in
    if negb ok then
      (* "Bad start pose" *)
      Ret (false, INVALID_ROBOT_STATE, env)
    else
      let env := set_start env
                   (addHashEntry (state_ID_to_coord_table_ env) start_coords
                      start_joint_values start_xyz) in
      (* Setup goal position in discrete space *)
      goal0 <- index (goal_constraints mreq) 0 ;;
      let env := set_state env
                   (fold_left (fun st jc =>
                                 setJointPositions st (joint_name jc) (position jc))
                      (joint_constraints goal0) (state_ env)) in
      r <- setup_goal env goal0 mres start_joint_values ;;
      match r with
      | inl early => Ret early
      | inr (goal_joint_values, goal_coords, goal_xyz, env) =>
          if negb (Nat.eqb (length getActiveJointModelNames) (length start_joint_values))
             || negb (Nat.eqb (length getActiveJointModelNames) (length goal_joint_values))
          then Fault AssertionFailed
          else
            let bfs := if use_bfs (params_ env)
                       then Some (BFS_3D_run (params_ env) goal_xyz)
                       else bfs_ env in
            Ret (true, mres,
                 set_goal env bfs goal0 (path_constraints mreq)
                   (addHashEntry (state_ID_to_coord_table_ env) goal_coords
                      goal_joint_values goal_xyz))
      end.

End Setup.

(** ** The constraint checks of the search *)

(** [set->decide(state).satisfied] for the [KinematicConstraintSet] that the
    setup cleared and filled from one [Constraints] message. *)
Class ConstraintEvaluator {C : Collaborators} : Type := {
  decide : Constraints -> RobotState -> bool
}.

Section ConstraintChecks.
Context {C : Collaborators} {K : ConstraintEvaluator}.

(** [isStateToStateValid(start, end)]: the result and the environment, whose
    [state_] the call moves to [end]. *)
Definition isStateToStateValid (env : Environment) (start end_ : list double)
    : res (bool * Environment) :=
  (* Update robot_state *)
  let env := set_state env (setJointGroupPositions (state_ env) end_) in
  (* Ensure path constraints *)
  path_constraints <- deref (path_constraint_set_ env) ;;
  if negb (decide path_constraints (state_ env)) then Ret (false, env)
  else
    (* Ensure collision free *)
    '(valid, unused) <- interpolateAndCollisionCheck env start end_ ;;
    Ret (valid, env).

(** [isStateGoal(angles)]: the result and the environment, whose [state_] the
    call moves to [angles]. *)
Definition isStateGoal (env : Environment) (angles : list double)
    : res (bool * Environment) :=
  (* Update robot_state *)
  let env := set_state env (setJointGroupPositions (state_ env) angles) in
  (* Are goal constraints met? *)
  goal_constraints <- deref (goal_constraint_set_ env) ;;
  Ret (decide goal_constraints (state_ env), env).

End ConstraintChecks.

(** * Vocabulary of the statements *)

(** ** Valid motions and where output waypoints come from *)

Section OutputPoints.
Context {C : Collaborators}.
Variable env : Environment.

(** The motion between two waypoints passes the validity check. *)
Definition isMotionValid (a b : JointTrajectoryPoint) : bool :=
  match interpolateAndCollisionCheck env (positions a) (positions b) with
  | Ret (true, _) => true
  | _ => false
  end.

(** Every consecutive pair of waypoints passes the validity check. *)
Fixpoint motions_valid (pts : list JointTrajectoryPoint) : bool :=
  match pts with
  | a :: (b :: _) as rest => isMotionValid a b && motions_valid rest
  | _ => true
  end.

(** A waypoint of the input, or an interpolated configuration of a motion
    between two waypoints of the input that passed the validity check. *)
Definition justified (traj_in : JointTrajectory) (p : JointTrajectoryPoint) : Prop :=
  In p (points traj_in)
  \/ exists a b segment_values v,
       In a (points traj_in) /\ In b (points traj_in)
       /\ interpolateAndCollisionCheck env (positions a) (positions b)
          = Ret (true, segment_values)
       /\ In v segment_values
       /\ p = jtp_of_positions v.

(** A path as the planner returns it: not empty, short enough for the
    [unsigned int] indices, every check between two of its waypoints returns,
    and every motion between adjacent waypoints is valid. *)
Definition valid_path (traj_in : JointTrajectory) : Prop :=
  (1 <= length (points traj_in))%nat
  /\ Z.of_nat (length (points traj_in)) < UINT_MOD
  /\ (forall a b, In a (points traj_in) -> In b (points traj_in) ->
        exists r,
          interpolateAndCollisionCheck env (positions a) (positions b) = Ret r)
  /\ (forall i a b,
        nth_error (points traj_in) i = Some a ->
        nth_error (points traj_in) (S i) = Some b ->
        isMotionValid a b = true).

End OutputPoints.

(** The output begins with the first waypoint of the input and ends with its
    last waypoint. *)
Definition keeps_ends (traj_in traj_out : JointTrajectory) : Prop :=
  exists first last,
    front (points traj_in) = Ret first
    /\ back (points traj_in) = Ret last
    /\ front (points traj_out) = Ret first
    /\ back (points traj_out) = Ret last.

(** ** The samples of a motion *)

Section Samples.
Context {C : Collaborators}.
Variables (rs_1 rs_2 : RobotState) (maximum_moves : Z).

(** The samples the loop visits from [i] on, each with its index. *)
Fixpoint sample_states (n : nat) (i : Z) (rs_temp : RobotState)
    : list (Z * RobotState) :=
  match n with
  | O => []
  | S n' =>
      let rs := interpolate rs_1 rs_2 (fraction maximum_moves i) rs_temp in
      (i, rs) :: sample_states n' (i + 1) rs
  end.

(** What the loop asks of a sample: it is the one of index
    [maximum_moves - 1], or it is free of collision. *)
Definition sample_passes (s : Z * RobotState) : bool :=
  (fst s =? maximum_moves - 1) || negb (checkCollision (snd s)).

End Samples.

(** ** The indices of the shortcutter *)

(** The indices stay in the input, and the current index is either next to
    the last committed one or one past the end of the last good segment. *)
Definition shortcut_inv (traj_in : JointTrajectory) (st : shortcut_state) : Prop :=
  0 <= last_point_ind st
  /\ last_point_ind st < current_point_ind st
  /\ current_point_ind st < Z.of_nat (length (points traj_in))
  /\ (current_point_ind st = last_point_ind st + 1
      \/ (last_good_start_ind st = last_point_ind st
          /\ last_good_end_ind st = current_point_ind st - 1
          /\ last_point_ind st < last_good_end_ind st)).

(** ** Reconstructed waypoints *)

(** A waypoint carries the stored joint angles of the state of its ID. *)
Definition carries (table : list EnvChain3DHashEntry) (id : Z)
    (p : JointTrajectoryPoint) : Prop :=
  exists entry, index table id = Ret entry /\ positions p = angles entry.

(** ** Signs and cells *)

(** Zero or finite: neither an infinity nor a NaN. *)
Definition finite (x : double) : bool :=
  match x with
  | S754_zero _ | S754_finite _ _ _ => true
  | S754_infinity _ | S754_nan => false
  end.

(** Zero or finite and positive. *)
Definition finite_not_negative (x : double) : bool :=
  match x with
  | S754_zero _ => true
  | S754_finite s _ _ => negb s
  | S754_infinity _ | S754_nan => false
  end.

(** No negative sign: a zero, a NaN, or a positive number or infinity. *)
Definition sign_not_negative (x : double) : Prop :=
  match x with
  | S754_zero _ | S754_nan => True
  | S754_infinity s | S754_finite s _ _ => s = false
  end.

(** The cell lies in the grid only if none of its indices is negative. *)
Definition cell_not_negative (cell : Z * Z * Z) : bool :=
  let '(x, y, z) := cell in (0 <=? x) && (0 <=? y) && (0 <=? z).

(** * A concrete robot: one prismatic joint along x

    The state is the vector of joint values, the tip sits at the joint value
    on the x axis, the joint interpolates linearly and the robot collides
    where [obstacle] holds of a joint value.  The search is the Manhattan
    distance to the goal cell (an empty 6-connected grid). *)

Definition lerp (t from to : double) : double :=
  dadd from (dmul (dsub to from) t).

Fixpoint lerp_all (t : double) (from to : list double) : list double :=
  match from, to with
  | a :: from', b :: to' => lerp t a b :: lerp_all t from' to'
  | _, _ => []
  end.

Definition slider (obstacle : double -> bool) : Collaborators :=
  {| RobotState := list double;
     RobotStateMsg := list double;
     BFS_3D := Z * Z * Z;
     getCurrentState := [S754_zero false];
     robotStateMsgToRobotState := fun msg _ => msg;
     setJointGroupPositions := fun _ v => v;
     setJointPositions := fun _ _ q => [q];
     copyJointGroupPositions := fun rs => rs;
     getActiveJointModelNames := ["slide"%string];
     interpolate := fun from to t _ => lerp_all t from to;
     checkCollision := existsb obstacle;
     shortest_angular_distance := fun from to => dsub to from;
     getGlobalLinkTransform :=
       fun rs => (hd (S754_zero false) rs, S754_zero false, S754_zero false);
     convertJointAnglesToCoord :=
       map (fun q => match trunc_Z q with Some z => z | None => 0 end);
     BFS_3D_run := fun _ goal => goal;
     getDistance :=
       fun goal x y z =>
         let '(gx, gy, gz) := goal in
         Z.abs (x - gx) + Z.abs (y - gy) + Z.abs (z - gz) |}.

(** The open interval of joint values between [lo] and [hi]. *)
Definition between (lo hi : double) (q : double) : bool :=
  dltb lo q && dltb q hi.

Definition free_space (q : double) : bool := false.

Definition slider_params (use_bfs : bool) (delta : double) : SBPLPlanningParams :=
  {| prims := []; use_joint_snap := false; joint_snap_thresh := dbl 1 (-3);
     use_bfs := use_bfs;
     field_x := dbl 2 0; field_y := dbl 2 0; field_z := dbl 2 0;
     field_resolution := dbl 1 (-6);
     field_origin_x := S754_zero false;
     field_origin_y := S754_zero false;
     field_origin_z := S754_zero false;
     cost_per_cell := 1;
     cost_per_meter := dbl 50 0;
     interpolation_distance := delta |}.

(** The environment before any setup. *)
Definition fresh_env {C : Collaborators} (params : SBPLPlanningParams)
    : Environment :=
  {| params_ := params; state_ := getCurrentState; prims_ := [];
     state_ID_to_coord_table_ := []; start_ := None; goal_ := None;
     bfs_ := None; goal_constraint_set_ := None; path_constraint_set_ := None |}.

Definition waypoint (q : Z) : JointTrajectoryPoint :=
  jtp_of_positions [double_of_int q].

Definition trajectory (qs : list Z) : JointTrajectory :=
  {| joint_names := ["slide"%string]; points := map waypoint qs |}.

(** ** Scenarios *)

(** The double nearest to 0.1. *)
Definition one_tenth : double := ddiv (dbl 1 0) (dbl 10 0).

(** A wall around the joint value 3: the open interval from 2.5 to 3.5. *)
Definition wall_at_3 : double -> bool := between (dbl 5 (-1)) (dbl 7 (-1)).

(** Two walls, around the joint values 1 and 3. *)
Definition two_walls (q : double) : bool :=
  between (dbl 3 (-2)) (dbl 5 (-2)) q || between (dbl 11 (-2)) (dbl 13 (-2)) q.

(** The state in which the loop stays on the trajectory 0, 2, 4 between the
    two walls. *)
Definition stuck_state : shortcut_state :=
  {| last_point_ind := 1; current_point_ind := 2;
     last_good_start_ind := 1; last_good_end_ind := 1;
     last_good_segment_values := [];
     out_points := [waypoint 0; waypoint 2] |}.

(** A table with the single state 0. *)
Definition one_state_env {C : Collaborators} : Environment :=
  {| params_ := slider_params false (dbl 1 0); state_ := getCurrentState;
     prims_ := [];
     state_ID_to_coord_table_ :=
       fst (addHashEntry [] [0] [double_of_int 0] (0, 0, 0));
     start_ := None; goal_ := None; bfs_ := None;
     goal_constraint_set_ := None; path_constraint_set_ := None |}.

(** A request for the slider: start at joint value [q0], one joint
    constraint at [q1]. *)
Definition slider_request (obstacle : double -> bool) (q0 q1 : double)
    : MotionPlanRequest (C := slider obstacle) :=
  @Build_MotionPlanRequest (slider obstacle)
    [q0]
    [ {| joint_constraints := [ {| joint_name := "slide"%string; position := q1 |} ];
         position_constraints := [] |} ]
    {| joint_constraints := []; position_constraints := [] |}.

(** The members a heuristic query reads: the goal entry and the search. *)
Definition env_with_goal {C : Collaborators} (params : SBPLPlanningParams)
    (bfs : option BFS_3D) (cell : Z * Z * Z) : Environment :=
  {| params_ := params; state_ := getCurrentState; prims_ := [];
     state_ID_to_coord_table_ := [];
     start_ := None;
     goal_ := Some {| stateID := 1; coord := []; angles := []; xyz := cell |};
     bfs_ := bfs;
     goal_constraint_set_ := None; path_constraint_set_ := None |}.

(** The constraints of the slider: every joint constraint names the value
    the joint has. *)
Definition slider_constraints (obstacle : double -> bool)
    : ConstraintEvaluator (C := slider obstacle) :=
  @Build_ConstraintEvaluator (slider obstacle)
    (fun constraints (rs : list double) =>
       forallb (fun jc => SFeqb (position jc) (hd (S754_zero false) rs))
         (joint_constraints constraints)).

(** ** The indices of the shortcutter, on any input *)

(** The three indices that the loop reads the input at lie inside it. *)
Definition shortcut_in_bounds (traj_in : JointTrajectory) (st : shortcut_state)
    : Prop :=
  0 <= last_point_ind st < Z.of_nat (length (points traj_in))
  /\ 0 <= current_point_ind st < Z.of_nat (length (points traj_in))
  /\ 0 <= last_good_end_ind st < Z.of_nat (length (points traj_in)).

(** A computation that returns or stops at a conversion out of range. *)
Definition conversion_fault_only {A : Type} (m : res A) : Prop :=
  (exists a, m = Ret a) \/ m = Fault NotRepresentable.

(** A number other than zero: an infinity or a finite value, not a NaN. *)
Definition nonzero_number (x : double) : bool :=
  match x with
  | S754_zero _ | S754_nan => false
  | S754_infinity _ | S754_finite _ _ _ => true
  end.

(** The three indices of a cell are [int]s. *)
Definition cell_in_int (cell : Z * Z * Z) : bool :=
  let '(x, y, z) := cell in in_int x && in_int y && in_int z.

(** An environment in the middle of a search on the slider: both constraint
    sets are filled, the goal is the joint value [q1]. *)
Definition searching_env (obstacle : double -> bool) (delta q1 : double)
    : Environment (C := slider obstacle) :=
  {| params_ := slider_params false delta;
     state_ := getCurrentState (Collaborators := slider obstacle);
     prims_ := [];
     state_ID_to_coord_table_ := []; start_ := None; goal_ := None; bfs_ := None;
     goal_constraint_set_ :=
       Some {| joint_constraints :=
                 [ {| joint_name := "slide"%string; position := q1 |} ];
               position_constraints := [] |};
     path_constraint_set_ :=
       Some {| joint_constraints := []; position_constraints := [] |} |}.

(** ** A robot with two prismatic joints, in the plane

    The state is the pair of joint values, the tip sits at them in the plane
    z = 0, both joints interpolate linearly and the robot collides where
    [obstacle] holds of the pair. *)

Definition planar (obstacle : double -> double -> bool) : Collaborators :=
  {| RobotState := list double;
     RobotStateMsg := list double;
     BFS_3D := Z * Z * Z;
     getCurrentState := [S754_zero false; S754_zero false];
     robotStateMsgToRobotState := fun msg _ => msg;
     setJointGroupPositions := fun _ v => v;
     setJointPositions :=
       fun rs name q =>
         match rs with
         | x :: y :: _ => if String.eqb name "x" then [q; y] else [x; q]
         | _ => rs
         end;
     copyJointGroupPositions := fun rs => rs;
     getActiveJointModelNames := ["x"%string; "y"%string];
     interpolate := fun from to t _ => lerp_all t from to;
     checkCollision :=
       fun rs =>
         match rs with
         | x :: y :: _ => obstacle x y
         | _ => false
         end;
     shortest_angular_distance := fun from to => dsub to from;
     getGlobalLinkTransform :=
       fun rs => (hd (S754_zero false) rs, hd (S754_zero false) (tl rs),
                  S754_zero false);
     convertJointAnglesToCoord :=
       map (fun q => match trunc_Z q with Some z => z | None => 0 end);
     BFS_3D_run := fun _ goal => goal;
     getDistance :=
       fun goal x y z =>
         let '(gx, gy, gz) := goal in
         Z.abs (x - gx) + Z.abs (y - gy) + Z.abs (z - gz) |}.

(** A bar in the plane: the joint pairs with 1.5 < x < 3.75 and
    1.5 < y < 2.5. *)
Definition bar (x y : double) : bool :=
  between (dbl 3 (-1)) (dbl 15 (-2)) x && between (dbl 3 (-1)) (dbl 5 (-1)) y.

Definition waypoint2 (x y : Z) : JointTrajectoryPoint :=
  jtp_of_positions [double_of_int x; double_of_int y].

Definition path2 (xys : list (Z * Z)) : JointTrajectory :=
  {| joint_names := ["x"%string; "y"%string];
     points := map (fun xy => waypoint2 (fst xy) (snd xy)) xys |}.

(** The path around the bar: along the x axis, up at x = 4 and back at
    y = 4. *)
Definition around_the_bar : JointTrajectory :=
  path2 [(0, 0); (2, 0); (4, 0); (4, 4); (0, 4)].

(** Every validity check between two waypoints of a list returns. *)
Definition checks_return {C : Collaborators} (env : Environment)
    (pts : list JointTrajectoryPoint) : bool :=
  forallb
    (fun a =>
       forallb
         (fun b =>
            match interpolateAndCollisionCheck env (positions a) (positions b) with
            | Ret _ => true
            | _ => false
            end) pts) pts.

(** ** The states of a request *)

(** The start state of a request: the start message over the current state
    of the scene. *)
Definition request_start_state {C : Collaborators} (mreq : MotionPlanRequest)
    : RobotState :=
  robotStateMsgToRobotState (start_state mreq) getCurrentState.

(** The state the goal is checked at: the start state, with the joints of
    the joint constraints of [goal0] at their positions. *)
Definition request_goal_state {C : Collaborators} (mreq : MotionPlanRequest)
    (goal0 : Constraints) : RobotState :=
  fold_left (fun st jc => setJointPositions st (joint_name jc) (position jc))
    (joint_constraints goal0)
    (setJointGroupPositions (request_start_state mreq)
       (copyJointGroupPositions (request_start_state mreq))).

(** A point that differs from another in its positions at most. *)
Definition same_but_positions (p p' : JointTrajectoryPoint) : Prop :=
  velocities p' = velocities p
  /\ accelerations p' = accelerations p
  /\ effort p' = effort p
  /\ time_from_start p' = time_from_start p.

(** A request for the slider without any goal constraints. *)
Definition slider_request_no_goal (obstacle : double -> bool) (q0 : double)
    : MotionPlanRequest (C := slider obstacle) :=
  @Build_MotionPlanRequest (slider obstacle)
    [q0] [] {| joint_constraints := []; position_constraints := [] |}.

(** A waypoint that carries a velocity and a time. *)
Definition moving_waypoint (q v : Z) : JointTrajectoryPoint :=
  {| positions := [double_of_int q]; velocities := [double_of_int v];
     accelerations := []; effort := []; time_from_start := (1, 0) |}.

(** * Properties *)

Lemma bind_Ret_inv {A B : Type} (m : res A) (k : A -> res B) (b : B) :
  bind m k = Ret b -> exists a, m = Ret a /\ k a = Ret b.
Proof. destruct m as [a| |]; simpl; intros E; try discriminate; eauto. Qed.

Lemma index_In {A : Type} (v : list A) (i : Z) (a : A) :
  index v i = Ret a -> In a v.
Proof.
  unfold index. destruct ((0 <=? i) && (i <? Z.of_nat (length v))); try discriminate.
  destruct (nth_error v (Z.to_nat i)) eqn:E; try discriminate.
  intros H; inversion H; subst. eapply nth_error_In; eauto.
Qed.

Lemma index_nth_error {A : Type} (v : list A) (n : nat) :
  index v (Z.of_nat n) =
  match nth_error v n with Some a => Ret a | None => Fault OutOfBounds end.
Proof.
  unfold index. rewrite Nat2Z.id.
  destruct (nth_error v n) eqn:E.
  - assert (n < length v)%nat by (apply nth_error_Some; congruence).
    replace ((0 <=? Z.of_nat n) && (Z.of_nat n <? Z.of_nat (length v))) with true.
    + reflexivity.
    + symmetry. apply andb_true_iff. split; [apply Z.leb_le | apply Z.ltb_lt]; lia.
  - destruct ((0 <=? Z.of_nat n) && (Z.of_nat n <? Z.of_nat (length v))); reflexivity.
Qed.

Lemma front_In {A : Type} (v : list A) (a : A) : front v = Ret a -> In a v.
Proof. destruct v; simpl; intros H; inversion H; auto. Qed.

Lemma back_In {A : Type} (v : list A) (a : A) : back v = Ret a -> In a v.
Proof.
  induction v as [|x [|y w] IH]; simpl; intros H; try discriminate.
  - inversion H; auto.
  - right. apply IH. exact H.
Qed.

Lemma back_last {A : Type} (v : list A) (a : A) : back (v ++ [a]) = Ret a.
Proof.
  induction v as [|x w IH]; [reflexivity|].
  change ((x :: w) ++ [a]) with (x :: (w ++ [a])).
  destruct (w ++ [a]) eqn:E; [destruct w; discriminate|].
  simpl. simpl in IH. exact IH.
Qed.

(** ** The motion validity check *)

Section MotionValidityFacts.
Context {C : Collaborators}.
Variables (rs_1 rs_2 : RobotState) (maximum_moves : Z).

Lemma interpolate_loop_valid (n : nat) :
  forall i rs_temp state_values,
    fst (interpolate_loop rs_1 rs_2 maximum_moves n i rs_temp state_values)
    = forallb (sample_passes maximum_moves)
        (sample_states rs_1 rs_2 maximum_moves n i rs_temp).
Proof.
  induction n as [|n IH]; intros i rs_temp state_values; [reflexivity|].
  cbn [interpolate_loop sample_states forallb].
  unfold sample_passes at 1. cbn [fst snd].
  destruct (i =? maximum_moves - 1); cbn [negb orb andb].
  - apply IH.
  - destruct (checkCollision _); cbn [negb]; [reflexivity | apply IH].
Qed.

Lemma interpolate_loop_values (n : nat) :
  forall i rs_temp state_values,
    forallb (sample_passes maximum_moves)
      (sample_states rs_1 rs_2 maximum_moves n i rs_temp) = true ->
    snd (interpolate_loop rs_1 rs_2 maximum_moves n i rs_temp state_values)
    = state_values
      ++ map (fun s => copyJointGroupPositions (snd s))
           (sample_states rs_1 rs_2 maximum_moves n i rs_temp).
Proof.
  induction n as [|n IH]; intros i rs_temp state_values.
  - intros _. cbn. now rewrite app_nil_r.
  - cbn [interpolate_loop sample_states forallb map].
    unfold sample_passes at 1. cbn [fst snd]. intros H.
    apply andb_true_iff in H. destruct H as [H1 H2].
    destruct (i =? maximum_moves - 1); cbn [negb orb andb] in *.
    + rewrite IH by exact H2. now rewrite <- app_assoc.
    + destruct (checkCollision _); [discriminate|].
      rewrite IH by exact H2. now rewrite <- app_assoc.
Qed.

Lemma sample_states_length (n : nat) :
  forall i rs_temp, length (sample_states rs_1 rs_2 maximum_moves n i rs_temp) = n.
Proof. induction n; intros; cbn; auto. Qed.

Lemma sample_states_free (n : nat) :
  (forall rs, checkCollision rs = false) ->
  forall i rs_temp,
    forallb (sample_passes maximum_moves)
      (sample_states rs_1 rs_2 maximum_moves n i rs_temp) = true.
Proof.
  intros Hfree. induction n as [|n IH]; intros; [reflexivity|].
  cbn [sample_states forallb]. rewrite IH. unfold sample_passes. cbn [fst snd].
  rewrite Hfree. now rewrite orb_true_r.
Qed.

End MotionValidityFacts.

Lemma interpolate_loop_free {C : Collaborators} (rs_1 rs_2 : RobotState)
    (maximum_moves : Z) (n : nat) (i : Z) (rs_temp : RobotState)
    (state_values : list (list double)) :
  (forall rs, checkCollision rs = false) ->
  exists more,
    interpolate_loop rs_1 rs_2 maximum_moves n i rs_temp state_values
    = (true, state_values ++ more)
    /\ length more = n.
Proof.
  intros Hfree.
  pose proof (sample_states_free rs_1 rs_2 maximum_moves n Hfree i rs_temp) as Hall.
  exists (map (fun s => copyJointGroupPositions (snd s))
            (sample_states rs_1 rs_2 maximum_moves n i rs_temp)).
  split.
  - rewrite (surjective_pairing (interpolate_loop _ _ _ _ _ _ _)).
    rewrite interpolate_loop_valid, Hall.
    now rewrite interpolate_loop_values by exact Hall.
  - now rewrite length_map, sample_states_length.
Qed.

(** Two vectors of different sizes between collision-free states: the
    distance is [INT_MAX], and the motion is interpolated over
    [INT_MAX - 1] samples and accepted. *)
Lemma interpolateAndCollisionCheck_mismatch {C : Collaborators}
    (env : Environment) (angles1 angles2 : list double) :
  length angles1 <> length angles2 ->
  (forall rs, checkCollision rs = false) ->
  exists state_values,
    interpolateAndCollisionCheck env angles1 angles2 = Ret (true, state_values)
    /\ length state_values = Z.to_nat (INT_MAX - 1).
Proof.
  intros Hlen Hfree. unfold interpolateAndCollisionCheck.
  rewrite Hfree. unfold getJointDistanceIntegerMax.
  apply Nat.eqb_neq in Hlen. rewrite Hlen. cbn [negb bind].
  destruct (interpolate_loop_free
              (setJointGroupPositions (state_ env) angles1)
              (setJointGroupPositions (state_ env) angles2)
              INT_MAX (Z.to_nat (INT_MAX - 1)) 1
              (setJointGroupPositions (state_ env) angles1) [] Hfree)
    as (more & Hloop & Hmore).
  exists more. rewrite Hloop. split; [reflexivity | exact Hmore].
Qed.

Lemma free_space_no_collision :
  forall rs : list double, existsb free_space rs = false.
Proof. induction rs as [|q rs IH]; [reflexivity | exact IH]. Qed.

(** C3 (the code departs from the claim): from [0] to [4] with an
    interpolation distance of 1 there are 4 steps and the interior samples
    1, 2 and 3.  The sample of index 3 = steps - 1 lies in the wall, the loop
    leaves it unchecked and the motion is reported valid. *)
Theorem interpolateAndCollisionCheck_skips_last_interior_sample :
  getJointDistanceIntegerMax (C := slider wall_at_3)
    [double_of_int 0] [double_of_int 4] (dbl 1 0) = Ret 4
  /\ interpolateAndCollisionCheck (C := slider wall_at_3)
       (fresh_env (slider_params false (dbl 1 0)))
       [double_of_int 0] [double_of_int 4]
     = Ret (true, [[double_of_int 1]; [double_of_int 2]; [double_of_int 3]])
  /\ checkCollision (Collaborators := slider wall_at_3) [double_of_int 3] = true
  /\ checkCollision (Collaborators := slider wall_at_3) [double_of_int 4] = false.
Proof. repeat split; vm_compute; reflexivity. Qed.

(** C4 (the code departs from the claim): a one-joint vector against a
    two-joint vector in free space.  The helper answers [INT_MAX], the check
    goes on to interpolate [INT_MAX - 1] samples and reports the motion
    valid. *)
Theorem interpolateAndCollisionCheck_accepts_size_mismatch :
  getJointDistanceIntegerMax (C := slider free_space)
    [double_of_int 0] [double_of_int 0; double_of_int 0] (dbl 1 0) = Ret INT_MAX
  /\ exists state_values,
       interpolateAndCollisionCheck (C := slider free_space)
         (fresh_env (slider_params false (dbl 1 0)))
         [double_of_int 0] [double_of_int 0; double_of_int 0]
       = Ret (true, state_values)
       /\ length state_values = Z.to_nat (INT_MAX - 1).
Proof.
  split; [reflexivity|].
  apply (interpolateAndCollisionCheck_mismatch (C := slider free_space)).
  - cbn [length]. discriminate.
  - exact free_space_no_collision.
Qed.

(** ** The shortcutter *)

Lemma push_segment_nil (out : list JointTrajectoryPoint) : push_segment out [] = out.
Proof. unfold push_segment. cbn. apply app_nil_r. Qed.

Section ShortcutFacts.
Context {C : Collaborators}.
Variable env : Environment.
Variable traj_in : JointTrajectory.

Lemma shortcut_body_inv (st : shortcut_state)
    (r : shortcut_state + list JointTrajectoryPoint) :
  shortcut_body env traj_in st = Ret r ->
  exists start_point end_point valid segment_values st1,
    index (points traj_in) (last_point_ind st) = Ret start_point
    /\ index (points traj_in) (current_point_ind st) = Ret end_point
    /\ interpolateAndCollisionCheck env (positions start_point) (positions end_point)
       = Ret (valid, segment_values)
    /\ (if valid then Ret (shortcut_extend st segment_values)
        else shortcut_commit traj_in st) = Ret st1
    /\ shortcut_finish traj_in st1 = Ret r.
Proof.
  unfold shortcut_body. intros H.
  apply bind_Ret_inv in H. destruct H as (start_point & Hs & H).
  apply bind_Ret_inv in H. destruct H as (end_point & He & H).
  apply bind_Ret_inv in H. destruct H as ([valid segment_values] & Hc & H).
  apply bind_Ret_inv in H. destruct H as (st1 & H1 & H).
  exists start_point, end_point, valid, segment_values, st1. auto.
Qed.

Lemma shortcut_commit_inv (st st1 : shortcut_state) :
  shortcut_commit traj_in st = Ret st1 ->
  ((exists p, index (points traj_in) (last_good_end_ind st) = Ret p
              /\ out_points st1 = out_points st ++ [p])
   \/ out_points st1 = push_segment (out_points st) (last_good_segment_values st))
  /\ last_good_segment_values st1 = []
  /\ last_point_ind st1 = last_good_end_ind st
  /\ current_point_ind st1 = u32 (last_good_end_ind st + 1)
  /\ last_good_start_ind st1 = last_good_end_ind st
  /\ last_good_end_ind st1 = last_good_end_ind st.
Proof.
  unfold shortcut_commit. intros H.
  apply bind_Ret_inv in H. destruct H as (out & Hout & H).
  inversion H; subst; clear H. cbn.
  repeat split; try reflexivity.
  destruct (u32 (last_good_end_ind st - last_good_start_ind st) =? 1).
  - apply bind_Ret_inv in Hout. destruct Hout as (p & Hp & Hout).
    inversion Hout; subst. left. eauto.
  - inversion Hout; subst. right. reflexivity.
Qed.

Lemma shortcut_flush (st : shortcut_state) :
  (if 0 <? Z.of_nat (length (last_good_segment_values st))
   then push_segment (out_points st) (last_good_segment_values st)
   else out_points st)
  = push_segment (out_points st) (last_good_segment_values st).
Proof.
  destruct (last_good_segment_values st) as [|v vs]; cbn [length].
  - cbn. now rewrite push_segment_nil.
  - destruct (0 <? Z.of_nat (S (length vs))) eqn:E; [reflexivity|].
    apply Z.ltb_ge in E. lia.
Qed.

Lemma shortcut_finish_inv (st : shortcut_state)
    (r : shortcut_state + list JointTrajectoryPoint) :
  shortcut_finish traj_in st = Ret r ->
  (current_point_ind st < Z.of_nat (length (points traj_in)) /\ r = inl st)
  \/ (Z.of_nat (length (points traj_in)) <= current_point_ind st
      /\ exists last,
           back (points traj_in) = Ret last
           /\ r = inr (push_segment (out_points st) (last_good_segment_values st)
                       ++ [last])).
Proof.
  unfold shortcut_finish. rewrite shortcut_flush.
  destruct (Z.of_nat (length (points traj_in)) <=? current_point_ind st) eqn:E.
  - apply Z.leb_le in E. intros H.
    apply bind_Ret_inv in H. destruct H as (last & Hl & H).
    inversion H; subst. right. eauto.
  - apply Z.leb_gt in E. intros H. inversion H; subst. left. auto.
Qed.

(** The invariant rule of the loop. *)
Lemma shortcut_loop_inv (I : shortcut_state -> Prop)
    (Q : list JointTrajectoryPoint -> Prop) :
  (forall st st', I st -> shortcut_body env traj_in st = Ret (inl st') -> I st') ->
  (forall st out, I st -> shortcut_body env traj_in st = Ret (inr out) -> Q out) ->
  forall fuel st out,
    I st -> shortcut_loop env traj_in fuel st = Ret out -> Q out.
Proof.
  intros Hstep Hexit. induction fuel as [|fuel IH]; intros st out HI H.
  - discriminate.
  - cbn [shortcut_loop] in H.
    apply bind_Ret_inv in H. destruct H as ([st'|out'] & Hb & H).
    + eapply IH; [eapply Hstep; eauto | exact H].
    + inversion H; subst. eapply Hexit; eauto.
Qed.

Lemma attemptShortcut_inv (fuel : nat) (traj_out : JointTrajectory) :
  attemptShortcut env traj_in fuel = Ret traj_out ->
  (length (points traj_in) = 1%nat /\ traj_out = traj_in)
  \/ (length (points traj_in) <> 1%nat
      /\ exists first,
           front (points traj_in) = Ret first
           /\ shortcut_loop env traj_in fuel
                {| last_point_ind := 0; current_point_ind := 1;
                   last_good_start_ind := 0; last_good_end_ind := 1;
                   last_good_segment_values := []; out_points := [first] |}
              = Ret (points traj_out)).
Proof.
  unfold attemptShortcut.
  destruct (Nat.eqb (length (points traj_in)) 1) eqn:E.
  - apply Nat.eqb_eq in E. intros H. inversion H; subst. left. auto.
  - apply Nat.eqb_neq in E. intros H. right. split; [exact E|].
    apply bind_Ret_inv in H. destruct H as (first & Hf & H).
    apply bind_Ret_inv in H. destruct H as (pts & Hl & H).
    inversion H; subst. cbn. eauto.
Qed.

End ShortcutFacts.

(** Whenever the shortcutter returns, the input was not empty, the first
    waypoint of the output is the first waypoint of the input and the last
    waypoint of the output is the last waypoint of the input. *)
Lemma attemptShortcut_ends {C : Collaborators}
    (env : Environment) (traj_in traj_out : JointTrajectory) (fuel : nat) :
  attemptShortcut env traj_in fuel = Ret traj_out ->
  keeps_ends traj_in traj_out.
Proof.
  unfold keeps_ends.
  intros H. apply attemptShortcut_inv in H.
  destruct H as [[Hlen ->] | (Hlen & first & Hfirst & Hloop)].
  - destruct (points traj_in) as [|p [|q w]]; try discriminate.
    exists p, p. repeat split.
  - exists first.
    assert (Hgoal :
      front (points traj_out) = Ret first
      /\ exists last, back (points traj_in) = Ret last
                      /\ back (points traj_out) = Ret last).
    { revert Hloop.
      apply (shortcut_loop_inv env traj_in
               (fun st => exists rest, out_points st = first :: rest)
               (fun out => front out = Ret first
                           /\ exists last, back (points traj_in) = Ret last
                                           /\ back out = Ret last)).
      - intros st st' (rest & Hout) Hb.
        apply shortcut_body_inv in Hb.
        destruct Hb as (sp & ep & valid & sv & st1 & _ & _ & _ & H1 & Hfin).
        apply shortcut_finish_inv in Hfin.
        destruct Hfin as [[_ Hr] | (_ & last & _ & Hr)]; inversion Hr; subst st1.
        destruct valid.
        + inversion H1; subst. cbn. eauto.
        + apply shortcut_commit_inv in H1. destruct H1 as (Hout' & _).
          destruct Hout' as [(p & _ & E) | E]; rewrite E, Hout;
            unfold push_segment; cbn; eauto.
      - intros st out (rest & Hout) Hb.
        apply shortcut_body_inv in Hb.
        destruct Hb as (sp & ep & valid & sv & st1 & _ & _ & _ & H1 & Hfin).
        apply shortcut_finish_inv in Hfin.
        destruct Hfin as [[_ Hr] | (_ & last & Hlast & Hr)]; inversion Hr; subst out.
        assert (Hst1 : exists rest1, out_points st1 = first :: rest1).
        { destruct valid.
          - inversion H1; subst. cbn. eauto.
          - apply shortcut_commit_inv in H1. destruct H1 as (Hout' & _).
            destruct Hout' as [(p & _ & E) | E]; rewrite E, Hout;
              unfold push_segment; cbn; eauto. }
        destruct Hst1 as (rest1 & E1). split.
        + unfold push_segment. rewrite E1. reflexivity.
        + exists last. split; [exact Hlast | apply back_last].
      - cbn. eauto. }
    destruct Hgoal as (Hf & last & Hl & Hb). exists last. auto.
Qed.

Section JustifiedFacts.
Context {C : Collaborators}.
Variable env : Environment.
Variable traj_in : JointTrajectory.

Lemma justified_segment (a b : JointTrajectoryPoint)
    (segment_values : list (list double)) :
  In a (points traj_in) -> In b (points traj_in) ->
  interpolateAndCollisionCheck env (positions a) (positions b)
  = Ret (true, segment_values) ->
  Forall (justified env traj_in) (map jtp_of_positions segment_values).
Proof.
  intros Ha Hb Hc. apply Forall_forall. intros p Hp.
  apply in_map_iff in Hp. destruct Hp as (v & <- & Hv).
  right. exists a, b, segment_values, v. auto.
Qed.

End JustifiedFacts.

(** Whenever the shortcutter returns, every waypoint of its output is a
    waypoint of the input or an interpolated configuration of a motion
    between two input waypoints that passed the validity check. *)
Lemma attemptShortcut_points_justified {C : Collaborators}
    (env : Environment) (traj_in traj_out : JointTrajectory) (fuel : nat) :
  attemptShortcut env traj_in fuel = Ret traj_out ->
  Forall (justified env traj_in) (points traj_out).
Proof.
  intros H. apply attemptShortcut_inv in H.
  destruct H as [[Hlen ->] | (Hlen & first & Hfirst & Hloop)].
  - apply Forall_forall. intros p Hp. now left.
  - set (J := justified env traj_in).
    assert (Hstep : forall st r,
      Forall J (out_points st) ->
      Forall J (map jtp_of_positions (last_good_segment_values st)) ->
      shortcut_body env traj_in st = Ret r ->
      match r with
      | inl st' => Forall J (out_points st')
                   /\ Forall J (map jtp_of_positions (last_good_segment_values st'))
      | inr out => Forall J out
      end).
    { intros st r Hout Hseg Hb.
      apply shortcut_body_inv in Hb.
      destruct Hb as (sp & ep & valid & sv & st1 & Hsp & Hep & Hc & H1 & Hfin).
      apply index_In in Hsp. apply index_In in Hep.
      assert (Hst1 : Forall J (out_points st1)
                     /\ Forall J (map jtp_of_positions (last_good_segment_values st1))).
      { destruct valid.
        - inversion H1; subst st1. cbn. split; [exact Hout|].
          exact (justified_segment env traj_in sp ep sv Hsp Hep Hc).
        - apply shortcut_commit_inv in H1.
          destruct H1 as (Hout' & Hsegs & _). rewrite Hsegs. split; [|constructor].
          destruct Hout' as [(p & Hp & E) | E]; rewrite E.
          + apply Forall_app. split; [exact Hout|].
            constructor; [|constructor]. left. eapply index_In; eauto.
          + unfold push_segment. apply Forall_app. auto. }
      destruct Hst1 as (Hout1 & Hseg1).
      apply shortcut_finish_inv in Hfin.
      destruct Hfin as [[_ ->] | (_ & last & Hlast & ->)].
      - auto.
      - apply Forall_app. split.
        + unfold push_segment. apply Forall_app. auto.
        + constructor; [|constructor]. left. eapply back_In; eauto. }
    revert Hloop.
    apply (shortcut_loop_inv env traj_in
             (fun st => Forall J (out_points st)
                        /\ Forall J (map jtp_of_positions (last_good_segment_values st)))
             (fun out => Forall J out)).
    + intros st st' (Ho & Hs) Hb. exact (Hstep st (inl st') Ho Hs Hb).
    + intros st out (Ho & Hs) Hb. exact (Hstep st (inr out) Ho Hs Hb).
    + cbn. split; [|constructor].
      constructor; [|constructor]. left. eapply front_In; eauto.
Qed.

(** An input that is not valid itself: it goes from 0 to 3 and the joint
    value 3 lies in a wall, so its only adjacent pair is not a valid motion.
    The shortcutter copies the end of that pair into the output all the same
    (and appends it once more as the last waypoint); the output has
    consecutive pairs that do not pass the validity check. *)
Lemma attemptShortcut_output_invalid_motion :
  let env := fresh_env (C := slider wall_at_3) (slider_params false (dbl 1 0)) in
  isMotionValid env (waypoint 0) (waypoint 3) = false
  /\ attemptShortcut env (trajectory [0; 3]) 2
     = Ret {| joint_names := ["slide"%string];
              points := [waypoint 0; waypoint 3; waypoint 3] |}
  /\ motions_valid env [waypoint 0; waypoint 3; waypoint 3] = false.
Proof. repeat split; vm_compute; reflexivity. Qed.

(** The same on an input whose only motion passes the check: from 0 to 4
    past the wall at 3 the last-but-one sample is left unchecked, the motion
    is accepted, and the output holds the configuration 3 in the wall. *)
Example attemptShortcut_output_unchecked_sample :
  let env := fresh_env (C := slider wall_at_3) (slider_params false (dbl 1 0)) in
  isMotionValid env (waypoint 0) (waypoint 4) = true
  /\ attemptShortcut env (trajectory [0; 4]) 2 = Ret (trajectory [0; 1; 2; 3; 4])
  /\ motions_valid env (points (trajectory [0; 1; 2; 3; 4])) = false.
Proof. repeat split; vm_compute; reflexivity. Qed.

(** C10: on the empty trajectory the shortcutter reads [points.front()]
    outside the vector, whatever the fuel; [points[0]] and [points[1]], which
    the loop would read next, are outside the vector as well. *)
Theorem attemptShortcut_empty_out_of_bounds {C : Collaborators}
    (env : Environment) (names : list string) (fuel : nat) :
  attemptShortcut env {| joint_names := names; points := [] |} fuel
  = Fault OutOfBounds
  /\ front (@nil JointTrajectoryPoint) = Fault OutOfBounds
  /\ index (@nil JointTrajectoryPoint) 0 = Fault OutOfBounds
  /\ index (@nil JointTrajectoryPoint) 1 = Fault OutOfBounds
  /\ back (@nil JointTrajectoryPoint) = Fault OutOfBounds.
Proof. repeat split. Qed.

Lemma shortcut_loop_stuck {C : Collaborators} (env : Environment)
    (traj_in : JointTrajectory) (st : shortcut_state) :
  shortcut_body env traj_in st = Ret (inl st) ->
  forall fuel, shortcut_loop env traj_in fuel st = Timeout.
Proof.
  intros Hb. induction fuel as [|fuel IH]; [reflexivity|].
  cbn [shortcut_loop]. rewrite Hb. cbn [bind]. exact IH.
Qed.

(** C2 (the code departs from the claim): the waypoints 0, 2 and 4 are free
    of collision, the motions 0 to 2 and 2 to 4 each cross a wall.  The first
    failed check commits waypoint 2 as an adjacent copy; the second failed
    check finds the last good segment empty, copies nothing and restores the
    very same indices: the loop never ends, whatever the fuel. *)
Theorem attemptShortcut_two_failures_never_returns :
  let env := fresh_env (C := slider two_walls) (slider_params false (dbl 1 (-1))) in
  forallb (fun p => negb (checkCollision (Collaborators := slider two_walls)
                            (positions p)))
    (points (trajectory [0; 2; 4])) = true
  /\ isMotionValid env (waypoint 0) (waypoint 2) = false
  /\ isMotionValid env (waypoint 2) (waypoint 4) = false
  /\ shortcut_body env (trajectory [0; 2; 4]) stuck_state = Ret (inl stuck_state)
  /\ forall fuel, attemptShortcut env (trajectory [0; 2; 4]) fuel = Timeout.
Proof.
  cbv zeta.
  assert (Hstuck :
    shortcut_body (fresh_env (C := slider two_walls) (slider_params false (dbl 1 (-1))))
      (trajectory [0; 2; 4]) stuck_state = Ret (inl stuck_state))
    by (vm_compute; reflexivity).
  split; [vm_compute; reflexivity|].
  split; [vm_compute; reflexivity|].
  split; [vm_compute; reflexivity|].
  split; [exact Hstuck|].
  intros [|fuel]; [vm_compute; reflexivity|].
  unfold attemptShortcut.
  change (Nat.eqb (length (points (trajectory [0; 2; 4]))) 1) with false.
  cbn [front points trajectory map bind shortcut_loop].
  replace (shortcut_body _ _ _) with (@Ret (shortcut_state + list JointTrajectoryPoint)
                                        (inl stuck_state))
    by (vm_compute; reflexivity).
  cbn [bind]. rewrite (@shortcut_loop_stuck _ _ _ _ Hstuck). reflexivity.
Qed.

Lemma index_in_range {A : Type} (v : list A) (j : nat) :
  (j < length v)%nat -> exists a, index v (Z.of_nat j) = Ret a /\ In a v.
Proof.
  intros Hj. rewrite index_nth_error.
  destruct (nth_error v j) as [a|] eqn:E.
  - exists a. split; [reflexivity | eapply nth_error_In; eauto].
  - apply nth_error_None in E. lia.
Qed.

Lemma index_front {A : Type} (v : list A) : index v 0 = front v.
Proof. destruct v; reflexivity. Qed.

Lemma index_back {A : Type} (v : list A) :
  index v (Z.of_nat (length v - 1)) = back v.
Proof.
  rewrite index_nth_error.
  induction v as [|x [|y w] IH]; try reflexivity.
  replace (length (x :: y :: w) - 1)%nat with (S (length (y :: w) - 1))
    by (cbn [length]; lia).
  cbn [nth_error]. rewrite IH. reflexivity.
Qed.

Lemma u32_small (z : Z) : 0 <= z < UINT_MOD -> u32 z = z.
Proof. intros H. unfold u32. apply Z.mod_small. exact H. Qed.

Section AllValid.
Context {C : Collaborators}.
Variable env : Environment.
Variable traj_in : JointTrajectory.
Hypothesis size_fits : Z.of_nat (length (points traj_in)) < UINT_MOD.
Hypothesis all_valid :
  forall a b, In a (points traj_in) -> In b (points traj_in) ->
    exists segment_values,
      interpolateAndCollisionCheck env (positions a) (positions b)
      = Ret (true, segment_values).

(** With every check valid the loop walks the current index to the end of
    the input and flushes the samples of the span from the first waypoint to
    the last. *)
Lemma shortcut_loop_all_valid (first last : JointTrajectoryPoint) :
  front (points traj_in) = Ret first ->
  back (points traj_in) = Ret last ->
  forall m j fuel st,
    (j + m = length (points traj_in))%nat -> (1 <= m)%nat -> (m <= fuel)%nat ->
    last_point_ind st = 0 ->
    current_point_ind st = Z.of_nat j ->
    out_points st = [first] ->
    exists segment_values,
      interpolateAndCollisionCheck env (positions first) (positions last)
      = Ret (true, segment_values)
      /\ shortcut_loop env traj_in fuel st
         = Ret (first :: map jtp_of_positions segment_values ++ [last]).
Proof.
  intros Hfirst Hlast.
  induction m as [|m IH]; intros j fuel st Hjm Hm Hfuel Hlpi Hcpi Hout; [lia|].
  destruct fuel as [|fuel]; [lia|].
  destruct (index_in_range (points traj_in) j) as (end_point & Hend & Hin); [lia|].
  pose proof (front_In _ _ Hfirst) as Hfin.
  destruct (all_valid first end_point Hfin Hin) as (sv & Hsv).
  cbn [shortcut_loop]. unfold shortcut_body.
  rewrite Hlpi, index_front, Hfirst, Hcpi, Hend. cbn [bind].
  rewrite Hsv. cbn [bind].
  unfold shortcut_finish. rewrite shortcut_flush.
  cbn [shortcut_extend current_point_ind out_points last_good_segment_values].
  rewrite Hcpi, u32_small by lia.
  destruct (Z.of_nat (length (points traj_in)) <=? Z.of_nat j + 1) eqn:E.
  - apply Z.leb_le in E.
    assert (Hj : j = (length (points traj_in) - 1)%nat) by lia.
    rewrite Hj, index_back, Hlast in Hend. inversion Hend; subst end_point.
    exists sv. split; [exact Hsv|].
    rewrite Hlast. cbn [bind]. rewrite Hout. unfold push_segment. reflexivity.
  - apply Z.leb_gt in E. cbn [bind].
    apply (IH (S j)); try lia.
    + exact Hlpi.
    + cbn [shortcut_extend current_point_ind].
      rewrite Hcpi, u32_small by lia. lia.
    + exact Hout.
Qed.

End AllValid.

(** C5, as the code has it: when every validity check between two waypoints
    of the input succeeds, the output is the first waypoint, the interpolated
    configurations of the motion from the first waypoint to the last, and the
    last waypoint. *)
Theorem attemptShortcut_all_valid {C : Collaborators}
    (env : Environment) (traj_in : JointTrajectory) (fuel : nat) :
  (2 <= length (points traj_in))%nat ->
  Z.of_nat (length (points traj_in)) < UINT_MOD ->
  (forall a b, In a (points traj_in) -> In b (points traj_in) ->
     exists segment_values,
       interpolateAndCollisionCheck env (positions a) (positions b)
       = Ret (true, segment_values)) ->
  (length (points traj_in) <= fuel)%nat ->
  exists first last segment_values,
    front (points traj_in) = Ret first
    /\ back (points traj_in) = Ret last
    /\ interpolateAndCollisionCheck env (positions first) (positions last)
       = Ret (true, segment_values)
    /\ attemptShortcut env traj_in fuel
       = Ret {| joint_names := joint_names traj_in;
                points := first :: map jtp_of_positions segment_values ++ [last] |}.
Proof.
  intros Hlen Hfits Hvalid Hfuel.
  destruct (points traj_in) as [|first rest] eqn:Epts; [cbn in Hlen; lia|].
  assert (Hfirst : front (points traj_in) = Ret first) by (rewrite Epts; reflexivity).
  destruct (index_in_range (points traj_in) (length (points traj_in) - 1))
    as (last & Hlast & _); [rewrite Epts; cbn [length]; lia|].
  rewrite index_back in Hlast.
  rewrite <- Epts in Hvalid, Hfits.
  destruct (shortcut_loop_all_valid env traj_in Hfits Hvalid first last Hfirst Hlast
              (length (points traj_in) - 1)%nat 1%nat fuel
              {| last_point_ind := 0; current_point_ind := 1;
                 last_good_start_ind := 0; last_good_end_ind := 1;
                 last_good_segment_values := [];
                 out_points := [first] |})
    as (sv & Hsv & Hloop);
    try reflexivity; try (rewrite Epts in *; cbn [length] in *; lia).
  exists first, last, sv. rewrite <- Epts.
  split; [exact Hfirst|]. split; [exact Hlast|]. split; [exact Hsv|].
  unfold attemptShortcut.
  replace (Nat.eqb (length (points traj_in)) 1) with false
    by (symmetry; apply Nat.eqb_neq; rewrite Epts; cbn [length] in *; lia).
  rewrite Hfirst. cbn [bind]. rewrite Hloop. reflexivity.
Qed.

Lemma attemptShortcut_all_valid_witness :
  exists first last segment_values,
    front (points (trajectory [0; 2; 4])) = Ret first
    /\ back (points (trajectory [0; 2; 4])) = Ret last
    /\ interpolateAndCollisionCheck (C := slider free_space)
         (fresh_env (slider_params false (dbl 1 0)))
         (positions first) (positions last)
       = Ret (true, segment_values)
    /\ attemptShortcut (C := slider free_space)
         (fresh_env (slider_params false (dbl 1 0))) (trajectory [0; 2; 4]) 3
       = Ret {| joint_names := joint_names (trajectory [0; 2; 4]);
                points := first :: map jtp_of_positions segment_values ++ [last] |}.
Proof.
  apply (attemptShortcut_all_valid (C := slider free_space)
           (fresh_env (slider_params false (dbl 1 0))) (trajectory [0; 2; 4]) 3).
  - simpl. lia.
  - reflexivity.
  - intros a b Ha Hb. simpl in Ha, Hb.
    destruct Ha as [<- | [<- | [<- | []]]];
      destruct Hb as [<- | [<- | [<- | []]]];
      eexists; vm_compute; reflexivity.
  - simpl. lia.
Defined.

(** C5 fails as stated: in free space every motion between two of the
    waypoints 0, 2 and 4 is valid, and the output is not the pair of the
    first and the last waypoint: it holds the three interpolated
    configurations of the motion from 0 to 4 between them, five waypoints
    for an input of three. *)
Lemma attemptShortcut_all_valid_not_two_waypoints :
  let env := fresh_env (C := slider free_space) (slider_params false (dbl 1 0)) in
  forallb (fun a => forallb (isMotionValid env a) (points (trajectory [0; 2; 4])))
    (points (trajectory [0; 2; 4])) = true
  /\ attemptShortcut env (trajectory [0; 2; 4]) 3
     = Ret (trajectory [0; 1; 2; 3; 4])
  /\ trajectory [0; 1; 2; 3; 4] <> trajectory [0; 4].
Proof.
  split; [vm_compute; reflexivity|].
  split; [vm_compute; reflexivity|].
  discriminate.
Qed.

(** ** Trajectory reconstruction *)

(** C7 (the code departs from the claim): the ID -1 was never assigned.  It
    is not above the last index 0 of the table, so the range test passes, and
    the table is read at index -1: no out-of-range result is returned. *)
Theorem populate_negative_id_not_rejected :
  populateTrajectoryFromStateIDSequence (C := slider free_space) one_state_env
    [-1] {| joint_names := []; points := [] |}
  = Fault OutOfBounds
  /\ exists traj,
       populateTrajectoryFromStateIDSequence (C := slider free_space) one_state_env
         [1] {| joint_names := []; points := [] |}
       = Ret (false, traj).
Proof. split; [reflexivity | eexists; reflexivity]. Qed.

Lemma resize_length (n : nat) (pts : list JointTrajectoryPoint) :
  length (resize n pts) = n.
Proof.
  unfold resize. rewrite length_app, length_firstn, repeat_length. lia.
Qed.

Section ReconstructionFacts.
Variable table : list EnvChain3DHashEntry.
Hypothesis table_fits : Z.of_nat (length table) <= INT_MAX.

Lemma populate_bound :
  int_arith (to_int (Z.of_nat (length table)) - 1)
  = Ret (Z.of_nat (length table) - 1).
Proof.
  unfold INT_MAX in table_fits.
  unfold to_int, int_arith, in_int, UINT_MOD, INT_MAX, INT_MIN.
  rewrite Z.mod_small by lia.
  replace (Z.of_nat (length table) <=? 2147483647) with true
    by (symmetry; apply Z.leb_le; lia).
  replace ((-2147483648 <=? Z.of_nat (length table) - 1)
           && (Z.of_nat (length table) - 1 <=? 2147483647)) with true.
  - reflexivity.
  - symmetry. apply andb_true_iff. split; apply Z.leb_le; lia.
Qed.

(** On IDs that are not negative the loop returns, and it returns false
    exactly when some ID is past the end of the table; on success every
    point carries the angles of its state. *)
Lemma populate_loop_nonneg :
  forall state_ids pts,
    length pts = length state_ids ->
    Forall (fun id => 0 <= id) state_ids ->
    exists ok pts',
      populate_loop table state_ids pts = Ret (ok, pts')
      /\ length pts' = length state_ids
      /\ (ok = false <-> Exists (fun id => Z.of_nat (length table) <= id) state_ids)
      /\ (ok = true -> Forall2 (carries table) state_ids pts').
Proof.
  induction state_ids as [|id ids IH]; intros pts Hlen Hpos.
  - destruct pts; [|discriminate]. exists true, []. cbn.
    repeat split; try discriminate; auto.
    intros H. inversion H.
  - destruct pts as [|p rest]; [discriminate|].
    inversion Hpos as [|? ? Hid Hids]; subst.
    cbn [populate_loop]. rewrite populate_bound. cbn [bind].
    destruct (Z.of_nat (length table) - 1 <? id) eqn:E.
    + apply Z.ltb_lt in E. exists false, (p :: rest).
      repeat split; auto; try discriminate.
      intros _. constructor. lia.
    + apply Z.ltb_ge in E.
      destruct (index_in_range table (Z.to_nat id)) as (entry & Hentry & _); [lia|].
      rewrite Z2Nat.id in Hentry by lia. rewrite Hentry. cbn [bind].
      destruct (IH rest) as (ok & pts' & Hloop & Hlen' & Hfalse & Htrue);
        [cbn in Hlen; lia | exact Hids |].
      rewrite Hloop. cbn [bind]. exists ok, (set_positions p (angles entry) :: pts').
      repeat split.
      * cbn. lia.
      * intros Hok. right. apply Hfalse. exact Hok.
      * intros Hex. inversion Hex as [? ? Hbad | ? ? Htail]; subst; [lia|].
        apply Hfalse. exact Htail.
      * intros Hok. constructor; [|auto].
        exists entry. split; [exact Hentry | reflexivity].
Qed.

End ReconstructionFacts.

(** X10: Reconstruction on IDs that are not negative: the function returns, it
    returns false exactly when some ID is past the highest assigned ID, and
    on success the trajectory has one waypoint per ID with the stored joint
    angles of that state. *)
Theorem populate_nonnegative_ids {C : Collaborators} (env : Environment)
    (state_ids : list Z) (traj : JointTrajectory) :
  Z.of_nat (length (state_ID_to_coord_table_ env)) <= INT_MAX ->
  Forall (fun id => 0 <= id) state_ids ->
  exists ok traj',
    populateTrajectoryFromStateIDSequence env state_ids traj = Ret (ok, traj')
    /\ length (points traj') = length state_ids
    /\ (ok = false <->
        Exists (fun id => Z.of_nat (length (state_ID_to_coord_table_ env)) <= id)
          state_ids)
    /\ (ok = true ->
        Forall2 (carries (state_ID_to_coord_table_ env)) state_ids (points traj')).
Proof.
  intros Hfits Hpos. unfold populateTrajectoryFromStateIDSequence.
  destruct (populate_loop_nonneg (state_ID_to_coord_table_ env) Hfits state_ids
              (resize (length state_ids) (points traj)))
    as (ok & pts' & Hloop & Hlen & Hfalse & Htrue);
    [apply resize_length | exact Hpos |].
  rewrite Hloop. cbn [bind]. exists ok, {| joint_names := getActiveJointModelNames;
                                           points := pts' |}.
  cbn [points]. auto.
Qed.

Lemma populate_nonnegative_ids_witness :
  exists ok traj',
    populateTrajectoryFromStateIDSequence (C := slider free_space) one_state_env
      [0; 0] {| joint_names := []; points := [] |} = Ret (ok, traj')
    /\ length (points traj') = length [0; 0]
    /\ (ok = false <->
        Exists (fun id => Z.of_nat (length (state_ID_to_coord_table_
                                             (one_state_env (C := slider free_space))))
                          <= id) [0; 0])
    /\ (ok = true ->
        Forall2 (carries (state_ID_to_coord_table_
                            (one_state_env (C := slider free_space))))
          [0; 0] (points traj')).
Proof.
  apply (populate_nonnegative_ids (C := slider free_space) one_state_env [0; 0]
           {| joint_names := []; points := [] |}).
  - vm_compute. discriminate.
  - repeat constructor; lia.
Defined.

(** ** The setup and the range of the grid *)

Lemma continuousXYZtoDiscreteXYZ_true (params_ : SBPLPlanningParams)
    (X Y Z : double) (ok : bool) (cell : BinNums.Z * BinNums.Z * BinNums.Z) :
  continuousXYZtoDiscreteXYZ params_ X Y Z = Ret (ok, cell) -> ok = true.
Proof.
  unfold continuousXYZtoDiscreteXYZ. intros H.
  apply bind_Ret_inv in H. destruct H as (x & _ & H).
  apply bind_Ret_inv in H. destruct H as (y & _ & H).
  apply bind_Ret_inv in H. destruct H as (z & _ & H).
  now inversion H.
Qed.

Lemma getEndEffectorCoord_true {C : Collaborators} (params_ : SBPLPlanningParams)
    (state state' : RobotState) (angles : list double) (ok : bool) (cell : Z * Z * Z) :
  getEndEffectorCoord params_ state angles = Ret (ok, cell, state') -> ok = true.
Proof.
  unfold getEndEffectorCoord.
  destruct (getGlobalLinkTransform _) as [[px py] pz]. intros H.
  apply bind_Ret_inv in H. destruct H as ([ok' cell'] & Hc & H).
  inversion H; subst. eapply continuousXYZtoDiscreteXYZ_true; eauto.
Qed.

Lemma setup_goal_codes {C : Collaborators} (env : Environment) (goal0 : Constraints)
    (mres code : MoveItErrorCodes) (start_joint_values : list double)
    (ok : bool) (env' : Environment) :
  setup_goal env goal0 mres start_joint_values = Ret (inl (ok, code, env')) ->
  ok = false /\ (code = GOAL_IN_COLLISION \/ code = mres).
Proof.
  unfold setup_goal.
  destruct (0 <? Z.of_nat (length (joint_constraints goal0))).
  - destruct (checkCollision (state_ env)).
    + intros H. inversion H; subst. auto.
    + intros H. apply bind_Ret_inv in H.
      destruct H as ([[ok' cell] state'] & Hc & H).
      apply getEndEffectorCoord_true in Hc. subst ok'. discriminate.
  - destruct (position_constraints goal0) as [|pc pcs].
    + intros H. inversion H; subst. auto.
    + destruct (target_point_offset pc) as [[tx ty] tz]. intros H.
      apply bind_Ret_inv in H. destruct H as ([ok' cell] & _ & H). discriminate.
Qed.

(** The discretization checks no limit, so [getEndEffectorCoord] never
    answers false, and the two branches of the setup that would report
    invalid-robot-state or invalid-goal are never taken: when the setup
    returns, it has failed with collision-in-start or collision-in-goal, or
    it has left the error code of the response as it was. *)
Theorem setupForMotionPlan_checks_no_range {C : Collaborators} :
  (forall params_ state state' angles ok cell,
     getEndEffectorCoord params_ state angles = Ret (ok, cell, state') -> ok = true)
  /\ (forall env mreq mres params ok code env',
        setupForMotionPlan env mreq mres params = Ret (ok, code, env') ->
        (ok = false /\ code = START_STATE_IN_COLLISION)
        \/ (ok = false /\ code = GOAL_IN_COLLISION)
        \/ code = mres).
Proof.
  split.
  - intros. eapply getEndEffectorCoord_true; eauto.
  - intros env mreq mres params ok code env'. unfold setupForMotionPlan.
    destruct (checkCollision _).
    + intros H. inversion H; subst. auto.
    + intros H. apply bind_Ret_inv in H.
      destruct H as ([[ok' cell] state'] & Hc & H).
      apply getEndEffectorCoord_true in Hc. subst ok'. cbn [negb] in H.
      apply bind_Ret_inv in H. destruct H as (goal0 & _ & H).
      apply bind_Ret_inv in H. destruct H as (r & Hr & H).
      destruct r as [[[ok1 code1] env1] | [[[gjv gc] gxyz] env1]].
      * inversion H; subst. apply setup_goal_codes in Hr.
        destruct Hr as (-> & [-> | ->]); auto.
      * destruct (_ || _); [discriminate|]. inversion H; subst. auto.
Qed.

(** Without the search: the grid starts at the origin and the tip of the
    start state sits at x = -1, one metre before the grid.  The pose is
    discretized to the cell (-64, 0, 0), [getEndEffectorCoord] answers true,
    and the setup succeeds with that cell in the start entry. *)
Lemma setupForMotionPlan_accepts_pose_outside_grid :
  let params := slider_params false (dbl 1 0) in
  let start := [double_of_int (-1)] in
  getEndEffectorCoord (C := slider free_space) params start start
  = Ret (true, (-64, 0, 0), start)
  /\ cell_not_negative (-64, 0, 0) = false
  /\ match setupForMotionPlan (C := slider free_space) (fresh_env params)
             (slider_request free_space (double_of_int (-1)) (double_of_int 1))
             (other_error_code 0) params with
     | Ret (ok, code, env') =>
         ok = true /\ code = other_error_code 0
         /\ option_map xyz (start_ env') = Some (-64, 0, 0)
     | _ => False
     end.
Proof.
  split; [vm_compute; reflexivity|].
  split; [reflexivity|].
  vm_compute. repeat split.
Qed.

(** ** The heuristic *)

Lemma digits2_pos_iter (p k : positive) :
  digits2_pos (Pos.iter xO p k) = (digits2_pos p + k)%positive.
Proof.
  induction k using Pos.peano_ind.
  - cbn. lia.
  - rewrite Pos.iter_succ. cbn [digits2_pos]. rewrite IHk. lia.
Qed.

Lemma digits2_pos_size (p : positive) : digits2_pos p = Pos.size p.
Proof. induction p; cbn; congruence. Qed.

Lemma digits2_pos_int (p : positive) :
  Zpos p <= 2147483648 -> Zpos (digits2_pos p) < 53.
Proof.
  intros Hp. rewrite digits2_pos_size.
  pose proof (Pos.size_le p) as Hsize.
  apply Pos2Z.pos_le_pos in Hsize. rewrite Pos2Z.inj_pow in Hsize.
  change (Zpos p~0) with (2 * Zpos p) in Hsize.
  destruct (Z_lt_le_dec (Zpos (Pos.size p)) 53) as [Hlt | Hge]; [exact Hlt|].
  pose proof (Z.pow_le_mono_r 2 53 (Zpos (Pos.size p)) ltac:(lia) Hge) as Hpow.
  change (2 ^ 53) with 9007199254740992 in Hpow. lia.
Qed.

(** A positive integer of fewer than 53 bits converts exactly. *)
Lemma binary_round_small (s : bool) (p : positive) :
  Zpos (digits2_pos p) < 53 ->
  binary_round prec emax s p 0
  = S754_finite s (Pos.iter xO p (Z.to_pos (53 - Zpos (digits2_pos p))))
      (Zpos (digits2_pos p) - 53).
Proof.
  intros Hd. unfold binary_round.
  set (d := Zpos (digits2_pos p)) in *.
  assert (Hfexp : fexp prec emax (d + 0) = d - 53).
  { unfold fexp, emin, prec, emax. lia. }
  rewrite Hfexp. unfold shl_align.
  destruct (d - 53 - 0) as [|q|q] eqn:E; try lia.
  assert (Hq : Z.to_pos (53 - d) = q) by lia.
  rewrite Hq. unfold binary_round_aux.
  assert (Hshr : shr_fexp prec emax (Zpos (Pos.iter xO p q)) (d - 53) loc_Exact
                 = (shr_record_of_loc (Zpos (Pos.iter xO p q)) loc_Exact, d - 53)).
  { unfold shr_fexp. cbn [Zdigits2]. rewrite digits2_pos_iter.
    replace (fexp prec emax (Zpos (digits2_pos p + q) + (d - 53)) - (d - 53)) with 0.
    - reflexivity.
    - unfold fexp, emin, prec, emax. fold d. lia. }
  rewrite Hshr. cbn [shr_record_of_loc shr_m loc_of_shr_record round_nearest_even].
  rewrite Hshr. cbn [shr_record_of_loc shr_m].
  replace (d - 53 <=? emax - prec) with true; [reflexivity|].
  symmetry. apply Z.leb_le. unfold emax, prec. lia.
Qed.

Lemma double_of_int_finite (z : Z) :
  in_int z = true -> finite (double_of_int z) = true.
Proof.
  unfold in_int, INT_MIN, INT_MAX. intros H.
  apply andb_true_iff in H. destruct H as [Hlo Hhi].
  apply Z.leb_le in Hlo. apply Z.leb_le in Hhi.
  unfold double_of_int, dbl, binary_normalize.
  destruct z as [|p|p]; [reflexivity| |];
    rewrite binary_round_small by (apply digits2_pos_int; lia); reflexivity.
Qed.

Lemma dsub_diag (x : double) : finite x = true -> dsub x x = S754_zero false.
Proof.
  destruct x as [s|s| |s m e]; try discriminate; intros _.
  - destruct s; reflexivity.
  - unfold dsub, SFsub. rewrite Z.sub_diag. reflexivity.
Qed.

Lemma binary_round_aux_sign (s : bool) (m e : Z) (l : location) :
  match binary_round_aux prec emax s m e l with
  | S754_zero s' | S754_infinity s' | S754_finite s' _ _ => s' = s
  | S754_nan => True
  end.
Proof.
  unfold binary_round_aux.
  destruct (shr_fexp prec emax m e l) as [mrs' e'].
  destruct (shr_fexp prec emax _ e' loc_Exact) as [mrs'' e''].
  destruct (shr_m mrs''); [reflexivity | | exact I].
  destruct (e'' <=? emax - prec); reflexivity.
Qed.

Lemma dsqrt_sign (x : double) : sign_not_negative (dsqrt x).
Proof.
  unfold dsqrt, SFsqrt. destruct x as [s|[|]| |[|] m e]; cbn; auto.
  destruct (SFsqrt_core_binary prec emax (Zpos m) e) as [[mz ez] lz].
  pose proof (binary_round_aux_sign false mz ez lz) as H.
  destruct (binary_round_aux prec emax false mz ez lz); cbn; auto.
Qed.

Lemma dmul_sign (x y : double) :
  sign_not_negative x -> finite_not_negative y = true ->
  sign_not_negative (dmul x y).
Proof.
  unfold dmul, SFmul.
  destruct x as [sx|sx| |sx mx ex]; destruct y as [sy|sy| |sy my ey];
    cbn; intros Hx Hy; try discriminate; auto.
  - subst sx. destruct sy; [discriminate | reflexivity].
  - subst sx. destruct sy; [discriminate|]. cbn [xorb].
    pose proof (binary_round_aux_sign false (Zpos (mx * my)) (ex + ey) loc_Exact) as H.
    destruct (binary_round_aux _ _ _ _ _ _); cbn; auto.
Qed.

Lemma int_of_double_sign (x : double) (h : Z) :
  sign_not_negative x -> int_of_double x = Ret h -> 0 <= h.
Proof.
  unfold int_of_double. destruct x as [s|s| |s m e]; cbn; intros Hs H; try discriminate.
  - inversion H. lia.
  - subst s. cbn [cond_Zopp] in H.
    destruct (in_int _); [|discriminate]. inversion H; subst.
    apply Z.shiftl_nonneg. lia.
Qed.

Lemma dmul_zero_finite (s : bool) (y : double) :
  finite y = true -> exists s', dmul (S754_zero s) y = S754_zero s'.
Proof. destruct y; try discriminate; intros _; cbn; eauto. Qed.

Lemma getEuclideanDistance_diag (x y z : double) :
  finite x = true -> finite y = true -> finite z = true ->
  getEuclideanDistance x y z x y z = S754_zero false.
Proof.
  intros Hx Hy Hz. unfold getEuclideanDistance.
  rewrite !dsub_diag by assumption. reflexivity.
Qed.

(** C8, as the code has it.  With the search, the value is the BFS distance
    of the cell times [cost_per_cell] (when that product is an [int]); it is
    not negative when neither factor is, and it is zero only where a factor
    is zero.  Without it, the value is the straight-line cell distance to the
    goal cell times the resolution times [cost_per_meter], truncated; it is
    not negative when neither scale is, and it is zero at the goal cell. *)
Theorem getEndEffectorHeuristic_modes {C : Collaborators}
    (env : Environment) (x y z : Z) :
  (forall bfs,
     use_bfs (params_ env) = true -> bfs_ env = Some bfs ->
     getEndEffectorHeuristic env x y z
     = int_arith (getDistance bfs x y z * cost_per_cell (params_ env))
     /\ (forall h,
           getEndEffectorHeuristic env x y z = Ret h ->
           h = getDistance bfs x y z * cost_per_cell (params_ env)
           /\ (0 <= getDistance bfs x y z -> 0 <= cost_per_cell (params_ env) -> 0 <= h)
           /\ (h = 0 -> getDistance bfs x y z = 0 \/ cost_per_cell (params_ env) = 0)))
  /\ (forall goal gx gy gz,
        use_bfs (params_ env) = false -> goal_ env = Some goal ->
        xyz goal = (gx, gy, gz) ->
        getEndEffectorHeuristic env x y z
        = int_of_double
            (dmul (dmul (getEuclideanDistance
                           (double_of_int x) (double_of_int y) (double_of_int z)
                           (double_of_int gx) (double_of_int gy) (double_of_int gz))
                        (field_resolution (params_ env)))
                  (cost_per_meter (params_ env)))
        /\ (finite_not_negative (field_resolution (params_ env)) = true ->
            finite_not_negative (cost_per_meter (params_ env)) = true ->
            forall h, getEndEffectorHeuristic env x y z = Ret h -> 0 <= h)
        /\ (finite (field_resolution (params_ env)) = true ->
            finite (cost_per_meter (params_ env)) = true ->
            in_int gx = true -> in_int gy = true -> in_int gz = true ->
            (x, y, z) = (gx, gy, gz) ->
            getEndEffectorHeuristic env x y z = Ret 0)).
Proof.
  split.
  - intros bfs Hmode Hbfs.
    assert (E : getEndEffectorHeuristic env x y z
                = int_arith (getDistance bfs x y z * cost_per_cell (params_ env))).
    { unfold getEndEffectorHeuristic. rewrite Hmode, Hbfs. reflexivity. }
    split; [exact E|]. intros h Hh. rewrite E in Hh. unfold int_arith in Hh.
    destruct (in_int _); [|discriminate]. inversion Hh; subst h.
    split; [reflexivity|]. split; [nia|]. intros H0. apply Z.mul_eq_0. exact H0.
  - intros goal gx gy gz Hmode Hgoal Hxyz.
    assert (E : getEndEffectorHeuristic env x y z
                = int_of_double
                    (dmul (dmul (getEuclideanDistance
                                   (double_of_int x) (double_of_int y) (double_of_int z)
                                   (double_of_int gx) (double_of_int gy) (double_of_int gz))
                                (field_resolution (params_ env)))
                          (cost_per_meter (params_ env)))).
    { unfold getEndEffectorHeuristic. rewrite Hmode, Hgoal. cbn [deref bind].
      rewrite Hxyz. reflexivity. }
    split; [exact E|]. split.
    + intros Hres Hcpm h Hh. rewrite E in Hh.
      eapply int_of_double_sign; [|exact Hh].
      apply dmul_sign; [|exact Hcpm].
      apply dmul_sign; [|exact Hres].
      apply dsqrt_sign.
    + intros Hres Hcpm Hgx Hgy Hgz Hcell. inversion Hcell; subst x y z.
      rewrite E.
      rewrite getEuclideanDistance_diag by (apply double_of_int_finite; assumption).
      destruct (dmul_zero_finite false _ Hres) as (s1 & ->).
      destruct (dmul_zero_finite s1 _ Hcpm) as (s2 & ->).
      reflexivity.
Qed.

Lemma getEndEffectorHeuristic_modes_witness :
  getEndEffectorHeuristic (C := slider free_space)
    (env_with_goal (slider_params false (dbl 1 0)) None (2, 0, 0)) 2 0 0 = Ret 0.
Proof.
  destruct (getEndEffectorHeuristic_modes (C := slider free_space)
              (env_with_goal (slider_params false (dbl 1 0)) None (2, 0, 0)) 2 0 0)
    as [_ Heuclid].
  destruct (Heuclid {| stateID := 1; coord := []; angles := []; xyz := (2, 0, 0) |}
              2 0 0 eq_refl eq_refl eq_refl) as (_ & _ & Hzero).
  apply Hzero; reflexivity.
Defined.

(** C8 fails as stated: without the search, with a resolution of 1/64 m and
    50 per metre, the cell next to the goal cell is 0.78 away and the
    truncation makes its heuristic zero; the value is zero at a cell that is
    not the goal cell. *)
Lemma getEndEffectorHeuristic_zero_off_goal :
  let env := env_with_goal (C := slider free_space)
               (slider_params false (dbl 1 0)) None (0, 0, 0) in
  getEndEffectorHeuristic env 1 0 0 = Ret 0
  /\ option_map xyz (goal_ env) = Some (0, 0, 0)
  /\ (1, 0, 0) <> (0, 0, 0).
Proof.
  split; [vm_compute; reflexivity|].
  split; [reflexivity | discriminate].
Qed.

(** With the search on the same grid, the value is the distance in cells. *)
Example getEndEffectorHeuristic_bfs_example :
  getEndEffectorHeuristic (C := slider free_space)
    (env_with_goal (C := slider free_space) (slider_params true (dbl 1 0))
       (Some (5, 5, 5)) (5, 5, 5)) 0 0 0 = Ret 15.
Proof. reflexivity. Qed.

(** ** Termination of the shortcutter on valid paths *)

Lemma index_Z_in_range {A : Type} (v : list A) (i : Z) :
  0 <= i < Z.of_nat (length v) ->
  exists a, index v i = Ret a /\ nth_error v (Z.to_nat i) = Some a.
Proof.
  intros Hi. unfold index.
  replace ((0 <=? i) && (i <? Z.of_nat (length v))) with true
    by (symmetry; apply andb_true_iff; split; [apply Z.leb_le | apply Z.ltb_lt]; lia).
  destruct (nth_error v (Z.to_nat i)) as [a|] eqn:E; [eauto|].
  apply nth_error_None in E. lia.
Qed.

Lemma isMotionValid_true {C : Collaborators} (env : Environment)
    (a b : JointTrajectoryPoint) :
  isMotionValid env a b = true ->
  exists segment_values,
    interpolateAndCollisionCheck env (positions a) (positions b)
    = Ret (true, segment_values).
Proof.
  unfold isMotionValid.
  destruct (interpolateAndCollisionCheck env (positions a) (positions b))
    as [[[|] sv]| |]; try discriminate. eauto.
Qed.

Section Termination.
Context {C : Collaborators}.
Variable env : Environment.
Variable traj_in : JointTrajectory.
Hypothesis size_fits : Z.of_nat (length (points traj_in)) < UINT_MOD.
Hypothesis checks_defined :
  forall a b, In a (points traj_in) -> In b (points traj_in) ->
    exists r, interpolateAndCollisionCheck env (positions a) (positions b) = Ret r.
Hypothesis adjacent_valid :
  forall i a b,
    nth_error (points traj_in) i = Some a ->
    nth_error (points traj_in) (S i) = Some b ->
    isMotionValid env a b = true.

(** Every iteration ends the loop or advances an index. *)
Lemma shortcut_body_progress (st : shortcut_state) :
  shortcut_inv traj_in st ->
  exists r,
    shortcut_body env traj_in st = Ret r
    /\ match r with
       | inl st' =>
           shortcut_inv traj_in st'
           /\ last_point_ind st + current_point_ind st
              < last_point_ind st' + current_point_ind st'
       | inr _ => True
       end.
Proof.
  intros (Hlo & Hlt & Hhi & Hkind). unfold shortcut_body.
  destruct (index_Z_in_range (points traj_in) (last_point_ind st))
    as (sp & Hsp & Nsp); [lia|].
  destruct (index_Z_in_range (points traj_in) (current_point_ind st))
    as (ep & Hep & Nep); [lia|].
  rewrite Hsp, Hep. cbn [bind].
  destruct (checks_defined sp ep (index_In _ _ _ Hsp) (index_In _ _ _ Hep))
    as ([valid sv] & Hc).
  rewrite Hc. cbn [bind].
  assert (Hback : exists last, back (points traj_in) = Ret last).
  { destruct (points traj_in) as [|x w] eqn:E; [cbn [length] in *; lia|].
    rewrite <- E. rewrite <- index_back.
    destruct (index_in_range (points traj_in) (length (points traj_in) - 1))
      as (last & Hl & _); [rewrite E; cbn; lia | eauto]. }
  destruct Hback as (last & Hlast).
  destruct valid.
  - cbn [bind]. unfold shortcut_finish.
    cbn [shortcut_extend current_point_ind last_point_ind last_good_start_ind
         last_good_end_ind].
    rewrite u32_small by lia.
    destruct (Z.of_nat (length (points traj_in)) <=? current_point_ind st + 1) eqn:E.
    + rewrite Hlast. cbn [bind]. eexists. split; [reflexivity | exact I].
    + apply Z.leb_gt in E. eexists. split; [reflexivity|].
      unfold shortcut_inv.
      cbn [shortcut_extend current_point_ind last_point_ind last_good_start_ind
           last_good_end_ind].
      rewrite u32_small by lia. repeat split; lia.
  - (* a failed check is not between adjacent waypoints *)
    destruct Hkind as [Hadj | (Hs & He & Hgap)].
    { exfalso.
      assert (Hnext : Z.to_nat (current_point_ind st) = S (Z.to_nat (last_point_ind st)))
        by lia.
      rewrite Hnext in Nep.
      pose proof (adjacent_valid _ _ _ Nsp Nep) as Hv.
      apply isMotionValid_true in Hv. destruct Hv as (sv' & Hv).
      rewrite Hv in Hc. discriminate. }
    unfold shortcut_commit.
    rewrite u32_small by lia.
    destruct (index_Z_in_range (points traj_in) (last_good_end_ind st))
      as (p & Hp & _); [lia|].
    assert (Hout : exists out,
      (if last_good_end_ind st - last_good_start_ind st =? 1
       then p0 <- index (points traj_in) (last_good_end_ind st) ;;
            Ret (out_points st ++ [p0])
       else Ret (push_segment (out_points st) (last_good_segment_values st)))
      = Ret out).
    { destruct (_ =? 1); [rewrite Hp; cbn [bind]|]; eauto. }
    destruct Hout as (out & ->). cbn [bind]. unfold shortcut_finish.
    cbn [current_point_ind last_point_ind last_good_start_ind last_good_end_ind].
    rewrite u32_small by lia.
    replace (Z.of_nat (length (points traj_in)) <=? last_good_end_ind st + 1) with false
      by (symmetry; apply Z.leb_gt; lia).
    eexists. split; [reflexivity|].
    unfold shortcut_inv.
    cbn [current_point_ind last_point_ind last_good_start_ind last_good_end_ind].
    repeat split; try lia.
Qed.

Lemma shortcut_loop_terminates :
  forall k fuel st,
    shortcut_inv traj_in st ->
    2 * Z.of_nat (length (points traj_in))
    - (last_point_ind st + current_point_ind st) <= Z.of_nat k ->
    (k <= fuel)%nat ->
    exists out, shortcut_loop env traj_in fuel st = Ret out.
Proof.
  induction k as [|k IH]; intros fuel st Hinv Hk Hfuel.
  - destruct Hinv as (? & ? & ? & _). lia.
  - destruct fuel as [|fuel]; [lia|].
    destruct (shortcut_body_progress st Hinv) as (r & Hb & Hr).
    cbn [shortcut_loop]. rewrite Hb. cbn [bind].
    destruct r as [st'|out]; [|eauto].
    destruct Hr as (Hinv' & Hmu). apply (IH fuel st' Hinv'); lia.
Qed.

End Termination.

(** On a path whose adjacent motions are all valid (and whose other checks
    return), the shortcutter returns within twice as many iterations as the
    input has waypoints. *)
Theorem attemptShortcut_terminates_on_valid_path {C : Collaborators}
    (env : Environment) (traj_in : JointTrajectory) (fuel : nat) :
  (1 <= length (points traj_in))%nat ->
  Z.of_nat (length (points traj_in)) < UINT_MOD ->
  (forall a b, In a (points traj_in) -> In b (points traj_in) ->
     exists r, interpolateAndCollisionCheck env (positions a) (positions b) = Ret r) ->
  (forall i a b,
     nth_error (points traj_in) i = Some a ->
     nth_error (points traj_in) (S i) = Some b ->
     isMotionValid env a b = true) ->
  (2 * length (points traj_in) <= fuel)%nat ->
  exists traj_out, attemptShortcut env traj_in fuel = Ret traj_out.
Proof.
  intros Hlen Hfits Hdef Hadj Hfuel. unfold attemptShortcut.
  destruct (Nat.eqb (length (points traj_in)) 1) eqn:E; [eauto|].
  apply Nat.eqb_neq in E.
  destruct (points traj_in) as [|first rest] eqn:Epts; [cbn in Hlen; lia|].
  cbn [front bind]. rewrite <- Epts in *.
  destruct (shortcut_loop_terminates env traj_in Hfits Hdef Hadj
              (2 * length (points traj_in)) fuel
              {| last_point_ind := 0; current_point_ind := 1;
                 last_good_start_ind := 0; last_good_end_ind := 1;
                 last_good_segment_values := []; out_points := [first] |})
    as (out & Hout).
  - unfold shortcut_inv. cbn [last_point_ind current_point_ind]. lia.
  - cbn [last_point_ind current_point_ind]. lia.
  - exact Hfuel.
  - rewrite Hout. cbn [bind]. eauto.
Qed.

Lemma attemptShortcut_terminates_on_valid_path_witness :
  exists traj_out,
    attemptShortcut (C := slider free_space)
      (fresh_env (slider_params false (dbl 1 0))) (trajectory [0; 2; 4]) 6
    = Ret traj_out.
Proof.
  apply (attemptShortcut_terminates_on_valid_path (C := slider free_space)
           (fresh_env (slider_params false (dbl 1 0))) (trajectory [0; 2; 4]) 6).
  - simpl. lia.
  - reflexivity.
  - intros a b Ha Hb. simpl in Ha, Hb.
    destruct Ha as [<- | [<- | [<- | []]]];
      destruct Hb as [<- | [<- | [<- | []]]];
      eexists; vm_compute; reflexivity.
  - intros [|[|[|i]]] a b Ha Hb; cbn in Ha, Hb;
      try discriminate; inversion Ha; inversion Hb; subst;
      vm_compute; reflexivity.
  - simpl. lia.
Defined.

(** ** The shortcutter on every input and on valid paths *)

Lemma valid_path_returns {C : Collaborators} (env : Environment)
    (traj_in : JointTrajectory) (fuel : nat) :
  valid_path env traj_in -> (2 * length (points traj_in) <= fuel)%nat ->
  exists traj_out, attemptShortcut env traj_in fuel = Ret traj_out.
Proof.
  intros (Hlen & Hfits & Hdef & Hadj) Hfuel.
  now apply attemptShortcut_terminates_on_valid_path.
Qed.

(** C6: whenever the shortcutter returns, the first waypoint of the output
    is the first waypoint of the input and the last waypoint of the output
    is the last waypoint of the input; and on a valid path it does return,
    within twice as many iterations as the path has waypoints. *)
Theorem attemptShortcut_keeps_first_and_last {C : Collaborators}
    (env : Environment) (traj_in : JointTrajectory) (fuel : nat) :
  (forall traj_out,
     attemptShortcut env traj_in fuel = Ret traj_out -> keeps_ends traj_in traj_out)
  /\ (valid_path env traj_in -> (2 * length (points traj_in) <= fuel)%nat ->
      exists traj_out,
        attemptShortcut env traj_in fuel = Ret traj_out
        /\ keeps_ends traj_in traj_out).
Proof.
  split.
  - intros traj_out. apply attemptShortcut_ends.
  - intros Hpath Hfuel.
    destruct (valid_path_returns env traj_in fuel Hpath Hfuel) as (traj_out & H).
    exists traj_out. split; [exact H | eapply attemptShortcut_ends; exact H].
Qed.

Lemma attemptShortcut_keeps_first_and_last_witness :
  keeps_ends (trajectory [0; 1; 2]) (trajectory [0; 1; 2]).
Proof.
  apply (proj1 (attemptShortcut_keeps_first_and_last (C := slider free_space)
                  (fresh_env (slider_params false (dbl 1 0)))
                  (trajectory [0; 1; 2]) 3)).
  vm_compute. reflexivity.
Defined.

(** Where the waypoints of the output come from: whenever the shortcutter
    returns, every waypoint of its output is a waypoint of the input or an
    interpolated configuration of a motion between two input waypoints that
    passed the validity check; and on a valid path it does return.  This says
    nothing of the motions between them. *)
Theorem attemptShortcut_output_justified {C : Collaborators}
    (env : Environment) (traj_in : JointTrajectory) (fuel : nat) :
  (forall traj_out,
     attemptShortcut env traj_in fuel = Ret traj_out ->
     Forall (justified env traj_in) (points traj_out))
  /\ (valid_path env traj_in -> (2 * length (points traj_in) <= fuel)%nat ->
      exists traj_out,
        attemptShortcut env traj_in fuel = Ret traj_out
        /\ Forall (justified env traj_in) (points traj_out)).
Proof.
  split.
  - intros traj_out. apply attemptShortcut_points_justified.
  - intros Hpath Hfuel.
    destruct (valid_path_returns env traj_in fuel Hpath Hfuel) as (traj_out & H).
    exists traj_out. split; [exact H | eapply attemptShortcut_points_justified; exact H].
Qed.

Lemma attemptShortcut_output_justified_witness :
  Forall (justified (C := slider free_space)
            (fresh_env (slider_params false (dbl 1 0))) (trajectory [0; 1; 2]))
    (points (trajectory [0; 1; 2])).
Proof.
  apply (proj1 (attemptShortcut_output_justified (C := slider free_space)
                  (fresh_env (slider_params false (dbl 1 0)))
                  (trajectory [0; 1; 2]) 3)).
  vm_compute. reflexivity.
Defined.

(** ** What the validity check does check *)

(** X3: The motion is reported valid exactly when the end state is free of
    collision and so is every interior sample but the one of index
    [maximum_moves - 1], which is never checked. *)
Theorem interpolateAndCollisionCheck_valid_iff {C : Collaborators}
    (env : Environment) (angles1 angles2 : list double) (maximum_moves : Z) :
  getJointDistanceIntegerMax angles1 angles2 (interpolation_distance (params_ env))
  = Ret maximum_moves ->
  let rs_1 := setJointGroupPositions (state_ env) angles1 in
  let rs_2 := setJointGroupPositions (state_ env) angles2 in
  exists valid state_values,
    interpolateAndCollisionCheck env angles1 angles2 = Ret (valid, state_values)
    /\ (valid = true <->
        checkCollision rs_2 = false
        /\ forall i rs,
             In (i, rs) (sample_states rs_1 rs_2 maximum_moves
                           (Z.to_nat (maximum_moves - 1)) 1 rs_1) ->
             i <> maximum_moves - 1 -> checkCollision rs = false).
Proof.
  intros Hm rs_1 rs_2. unfold interpolateAndCollisionCheck. fold rs_1 rs_2.
  destruct (checkCollision rs_2) eqn:Hend.
  - exists false, []. split; [reflexivity|]. split; [discriminate|].
    intros [H _]. discriminate.
  - rewrite Hm. cbn [bind].
    rewrite (surjective_pairing (interpolate_loop _ _ _ _ _ _ _)).
    rewrite interpolate_loop_valid.
    eexists _, _. split; [reflexivity|].
    rewrite forallb_forall. split.
    + intros Hall. split; [reflexivity|]. intros i rs Hin Hi.
      specialize (Hall (i, rs) Hin). unfold sample_passes in Hall. cbn [fst snd] in Hall.
      apply Z.eqb_neq in Hi. rewrite Hi in Hall. cbn [orb] in Hall.
      now apply negb_true_iff in Hall.
    + intros [_ Hfree] [i rs] Hin. unfold sample_passes. cbn [fst snd].
      destruct (i =? maximum_moves - 1) eqn:Ei; [reflexivity|].
      apply Z.eqb_neq in Ei. rewrite (Hfree i rs Hin Ei). reflexivity.
Qed.

Lemma interpolateAndCollisionCheck_valid_iff_witness :
  exists valid state_values,
    interpolateAndCollisionCheck (C := slider wall_at_3)
      (fresh_env (slider_params false (dbl 1 0)))
      [double_of_int 0] [double_of_int 4] = Ret (valid, state_values)
    /\ (valid = true <->
        checkCollision (Collaborators := slider wall_at_3) [double_of_int 4] = false
        /\ forall i rs,
             In (i, rs) (sample_states (C := slider wall_at_3)
                           [double_of_int 0] [double_of_int 4] 4
                           (Z.to_nat (4 - 1)) 1 [double_of_int 0]) ->
             i <> 4 - 1 ->
             checkCollision (Collaborators := slider wall_at_3) rs = false).
Proof.
  apply (interpolateAndCollisionCheck_valid_iff (C := slider wall_at_3)
           (fresh_env (slider_params false (dbl 1 0)))
           [double_of_int 0] [double_of_int 4] 4).
  vm_compute. reflexivity.
Defined.

(** ** Scenarios of the specification *)

(** A two-joint motion from (0, 0) to (0.5, 0) at an interpolation distance
    of 0.1 takes 5 steps and yields 4 interpolated configurations. *)
Example interpolation_of_half_a_radian :
  getJointDistanceIntegerMax (C := slider free_space)
    [dbl 0 0; dbl 0 0] [dbl 1 (-1); dbl 0 0] one_tenth = Ret 5
  /\ match interpolateAndCollisionCheck (C := slider free_space)
             (fresh_env (slider_params false one_tenth))
             [dbl 0 0; dbl 0 0] [dbl 1 (-1); dbl 0 0] with
     | Ret (valid, state_values) => valid = true /\ length state_values = 4%nat
     | _ => False
     end.
Proof. split; [vm_compute; reflexivity | vm_compute; split; reflexivity]. Qed.

(** A motion of length zero from a collision-free state is valid. *)
Example zero_length_motion :
  interpolateAndCollisionCheck (C := slider wall_at_3)
    (fresh_env (slider_params false one_tenth)) [dbl 1 0] [dbl 1 0]
  = Ret (true, []).
Proof. vm_compute. reflexivity. Qed.

(** A trajectory of one waypoint is returned unchanged. *)
Example attemptShortcut_single_waypoint :
  attemptShortcut (C := slider wall_at_3)
    (fresh_env (slider_params false one_tenth)) (trajectory [3]) 0
  = Ret (trajectory [3]).
Proof. reflexivity. Qed.

(** * Further properties *)

(** ** Faults of the validity check *)

Lemma int_of_double_faults (x : double) (f : fault) :
  int_of_double x = Fault f -> f = NotRepresentable.
Proof.
  unfold int_of_double. destruct (trunc_Z x) as [z|].
  - destruct (in_int z); [discriminate | congruence].
  - congruence.
Qed.

Lemma int_of_double_no_timeout (x : double) : int_of_double x <> Timeout.
Proof.
  unfold int_of_double. destruct (trunc_Z x) as [z|]; [|discriminate].
  destruct (in_int z); discriminate.
Qed.

Lemma int_of_double_in_int (x : double) (z : Z) :
  int_of_double x = Ret z -> in_int z = true.
Proof.
  unfold int_of_double. destruct (trunc_Z x) as [z'|]; [|discriminate].
  destruct (in_int z') eqn:E; [|discriminate]. intros H. inversion H; subst. exact E.
Qed.

Lemma int_of_double_cases (x : double) : conversion_fault_only (int_of_double x).
Proof.
  unfold conversion_fault_only, int_of_double. destruct (trunc_Z x) as [z|]; [|auto].
  destruct (in_int z); eauto.
Qed.

Lemma getJointDistanceIntegerMax_loop_cases {C : Collaborators}
    (angles1 : list double) :
  forall i angles2 delta max_dist,
    conversion_fault_only
      (getJointDistanceIntegerMax_loop i angles1 angles2 delta max_dist).
Proof.
  induction angles1 as [|a1 rest1 IH]; intros i [|a2 rest2] delta max_dist;
    try (left; eexists; reflexivity).
  cbn [getJointDistanceIntegerMax_loop].
  destruct (int_of_double_cases (floor (ddiv (fabs (dsub a2 a1)) delta)))
    as [(d0 & ->) | ->]; [|right; reflexivity].
  cbn [bind]. destruct ((i =? 4) || (i =? 6)).
  - destruct (int_of_double_cases
                (floor (ddiv (fabs (shortest_angular_distance a1 a2)) delta)))
      as [(d & ->) | ->]; [|right; reflexivity].
    cbn [bind]. apply IH.
  - cbn [bind]. apply IH.
Qed.

Lemma interpolateAndCollisionCheck_cases {C : Collaborators} (env : Environment)
    (angles1 angles2 : list double) :
  conversion_fault_only (interpolateAndCollisionCheck env angles1 angles2).
Proof.
  unfold interpolateAndCollisionCheck.
  destruct (checkCollision _); [left; eauto|].
  unfold getJointDistanceIntegerMax.
  destruct (negb _); [left; cbn [bind]; eauto|].
  destruct (getJointDistanceIntegerMax_loop_cases angles1 0 angles2
              (interpolation_distance (params_ env)) 0) as [(m & ->) | ->].
  - left. cbn [bind]. eauto.
  - right. reflexivity.
Qed.

(** ** The shortcutter reads inside the input *)

Section InBounds.
Context {C : Collaborators}.
Variable env : Environment.
Variable traj_in : JointTrajectory.
Hypothesis size_fits : Z.of_nat (length (points traj_in)) < UINT_MOD.

Lemma back_nonempty (v : list JointTrajectoryPoint) :
  (1 <= length v)%nat -> exists last, back v = Ret last.
Proof.
  intros Hv. rewrite <- index_back.
  destruct (index_in_range v (length v - 1)) as (last & Hl & _); [lia | eauto].
Qed.

Lemma shortcut_finish_in_bounds (st : shortcut_state) :
  0 <= last_point_ind st < Z.of_nat (length (points traj_in)) ->
  0 <= current_point_ind st <= Z.of_nat (length (points traj_in)) ->
  0 <= last_good_end_ind st < Z.of_nat (length (points traj_in)) ->
  (exists out, shortcut_finish traj_in st = Ret (inr out))
  \/ (shortcut_finish traj_in st = Ret (inl st) /\ shortcut_in_bounds traj_in st).
Proof.
  intros Hl Hc He. unfold shortcut_finish.
  destruct (Z.of_nat (length (points traj_in)) <=? current_point_ind st) eqn:E.
  - left. destruct (back_nonempty (points traj_in)) as (last & ->); [lia|].
    cbn [bind]. eauto.
  - apply Z.leb_gt in E. right. split; [reflexivity|].
    unfold shortcut_in_bounds. lia.
Qed.

(** An iteration from indices inside the input stops at a conversion out of
    range, ends the loop, or leaves indices inside the input. *)
Lemma shortcut_body_in_bounds (st : shortcut_state) :
  shortcut_in_bounds traj_in st ->
  shortcut_body env traj_in st = Fault NotRepresentable
  \/ (exists out, shortcut_body env traj_in st = Ret (inr out))
  \/ (exists st', shortcut_body env traj_in st = Ret (inl st')
                  /\ shortcut_in_bounds traj_in st').
Proof.
  intros (Hl & Hc & He). unfold shortcut_body.
  destruct (index_Z_in_range (points traj_in) (last_point_ind st) Hl)
    as (sp & -> & _).
  destruct (index_Z_in_range (points traj_in) (current_point_ind st) Hc)
    as (ep & -> & _).
  cbn [bind].
  destruct (interpolateAndCollisionCheck_cases env (positions sp) (positions ep))
    as [([valid sv] & ->) | ->]; [|left; reflexivity].
  cbn [bind]. right.
  assert (Hst1 : exists st1,
    (if valid then Ret (shortcut_extend st sv) else shortcut_commit traj_in st)
    = Ret st1
    /\ 0 <= last_point_ind st1 < Z.of_nat (length (points traj_in))
    /\ 0 <= current_point_ind st1 <= Z.of_nat (length (points traj_in))
    /\ 0 <= last_good_end_ind st1 < Z.of_nat (length (points traj_in))).
  { destruct valid.
    - eexists. split; [reflexivity|].
      cbn [shortcut_extend last_point_ind current_point_ind last_good_end_ind].
      rewrite u32_small by lia. lia.
    - unfold shortcut_commit.
      destruct (index_Z_in_range (points traj_in) (last_good_end_ind st) He)
        as (p & Hp & _).
      assert (Hout : exists out,
        (if u32 (last_good_end_ind st - last_good_start_ind st) =? 1
         then p0 <- index (points traj_in) (last_good_end_ind st) ;;
              Ret (out_points st ++ [p0])
         else Ret (push_segment (out_points st) (last_good_segment_values st)))
        = Ret out).
      { destruct (_ =? 1); [rewrite Hp; cbn [bind]|]; eauto. }
      destruct Hout as (out & ->). cbn [bind]. eexists. split; [reflexivity|].
      cbn [last_point_ind current_point_ind last_good_end_ind].
      rewrite u32_small by lia. lia. }
  destruct Hst1 as (st1 & -> & Hl1 & Hc1 & He1). cbn [bind].
  destruct (shortcut_finish_in_bounds st1 Hl1 Hc1 He1) as [(out & ->) | (-> & Hb)];
    eauto.
Qed.

Lemma shortcut_loop_in_bounds :
  forall fuel st f,
    shortcut_in_bounds traj_in st ->
    shortcut_loop env traj_in fuel st = Fault f -> f = NotRepresentable.
Proof.
  induction fuel as [|fuel IH]; intros st f Hb H; [discriminate|].
  cbn [shortcut_loop] in H.
  destruct (shortcut_body_in_bounds st Hb) as [E | [(out & E) | (st' & E & Hb')]];
    rewrite E in H; cbn [bind] in H.
  - congruence.
  - discriminate.
  - eapply IH; eauto.
Qed.

End InBounds.

(** X2: On an input of at least one waypoint (and fewer than 2^32) the
    shortcutter never reads outside the input: the only fault left to it is
    a step count that is not an [int]. *)
Theorem attemptShortcut_reads_in_bounds {C : Collaborators}
    (env : Environment) (traj_in : JointTrajectory) (fuel : nat) (f : fault) :
  (1 <= length (points traj_in))%nat ->
  Z.of_nat (length (points traj_in)) < UINT_MOD ->
  attemptShortcut env traj_in fuel = Fault f ->
  f = NotRepresentable.
Proof.
  intros Hlen Hfits. unfold attemptShortcut.
  destruct (Nat.eqb (length (points traj_in)) 1) eqn:E; [discriminate|].
  apply Nat.eqb_neq in E.
  destruct (points traj_in) as [|first rest] eqn:Epts; [cbn in Hlen; lia|].
  cbn [front bind]. rewrite <- Epts in *.
  destruct (shortcut_loop env traj_in fuel _) as [pts|f'|] eqn:Hloop;
    cbn [bind]; try discriminate.
  intros H. inversion H; subst f'.
  eapply (shortcut_loop_in_bounds env traj_in Hfits); [|exact Hloop].
  unfold shortcut_in_bounds.
  cbn [last_point_ind current_point_ind last_good_end_ind]. lia.
Qed.

Lemma attemptShortcut_reads_in_bounds_witness :
  NotRepresentable = NotRepresentable.
Proof.
  apply (attemptShortcut_reads_in_bounds (C := slider free_space)
           (fresh_env (slider_params false (S754_zero false)))
           (trajectory [0; 1]) 1 NotRepresentable).
  - simpl. lia.
  - reflexivity.
  - vm_compute. reflexivity.
Defined.

(** ** The shortcutter on valid paths *)

Lemma shortcut_loop_more_fuel {C : Collaborators} (env : Environment)
    (traj_in : JointTrajectory) (out : list JointTrajectoryPoint) :
  forall fuel fuel' st,
    shortcut_loop env traj_in fuel st = Ret out -> (fuel <= fuel')%nat ->
    shortcut_loop env traj_in fuel' st = Ret out.
Proof.
  induction fuel as [|fuel IH]; intros fuel' st H Hle; [discriminate|].
  destruct fuel' as [|fuel']; [lia|].
  cbn [shortcut_loop] in *.
  destruct (shortcut_body env traj_in st) as [[st'|out']| |]; cbn [bind] in *;
    try discriminate.
  - apply (IH fuel' st' H). lia.
  - exact H.
Qed.

Lemma attemptShortcut_more_fuel {C : Collaborators} (env : Environment)
    (traj_in traj_out : JointTrajectory) (fuel fuel' : nat) :
  attemptShortcut env traj_in fuel = Ret traj_out -> (fuel <= fuel')%nat ->
  attemptShortcut env traj_in fuel' = Ret traj_out.
Proof.
  unfold attemptShortcut. destruct (Nat.eqb _ 1); [auto|].
  destruct (front (points traj_in)) as [first| |]; cbn [bind]; try discriminate.
  destruct (shortcut_loop env traj_in fuel _) as [pts| |] eqn:Hloop;
    cbn [bind]; try discriminate.
  intros H Hle. rewrite (shortcut_loop_more_fuel env traj_in pts fuel fuel' _ Hloop Hle).
  exact H.
Qed.

(** X1: On a valid path (not empty, fewer than 2^32 waypoints, the validity
    check between any two of its waypoints returns, so no step count falls
    outside the [int] range, and every motion between adjacent waypoints
    passes it) the shortcutter returns: twice as many iterations as the path
    has waypoints are enough, more iterations give the same trajectory, and
    the trajectory carries the joint names of the input. *)
Theorem attemptShortcut_valid_path_total {C : Collaborators}
    (env : Environment) (traj_in : JointTrajectory) :
  valid_path env traj_in ->
  exists traj_out,
    joint_names traj_out = joint_names traj_in
    /\ forall fuel,
         (2 * length (points traj_in) <= fuel)%nat ->
         attemptShortcut env traj_in fuel = Ret traj_out.
Proof.
  intros Hpath.
  destruct (valid_path_returns env traj_in (2 * length (points traj_in)) Hpath
              (le_n _)) as (traj_out & Hout).
  exists traj_out. split.
  - revert Hout. unfold attemptShortcut.
    destruct (Nat.eqb _ 1); [intros H; inversion H; reflexivity|].
    destruct (front (points traj_in)) as [first'| |]; cbn [bind]; try discriminate.
    destruct (shortcut_loop env traj_in _ _) as [pts| |]; cbn [bind]; try discriminate.
    intros H. inversion H. reflexivity.
  - intros fuel Hfuel. eapply attemptShortcut_more_fuel; eauto.
Qed.

Lemma attemptShortcut_valid_path_total_witness :
  exists traj_out,
    joint_names traj_out = joint_names (trajectory [0; 2; 4])
    /\ forall fuel,
         (2 * length (points (trajectory [0; 2; 4]%Z)) <= fuel)%nat ->
         attemptShortcut (C := slider free_space)
           (fresh_env (slider_params false (dbl 1 0))) (trajectory [0; 2; 4]) fuel
         = Ret traj_out.
Proof.
  apply (attemptShortcut_valid_path_total (C := slider free_space)
           (fresh_env (slider_params false (dbl 1 0))) (trajectory [0; 2; 4])).
  unfold valid_path. split; [simpl; lia|]. split; [reflexivity|]. split.
  - intros a b Ha Hb. simpl in Ha, Hb.
    destruct Ha as [<- | [<- | [<- | []]]];
      destruct Hb as [<- | [<- | [<- | []]]];
      eexists; vm_compute; reflexivity.
  - intros [|[|[|i]]] a b Ha Hb; cbn in Ha, Hb;
      try discriminate; inversion Ha; inversion Hb; subst;
      vm_compute; reflexivity.
Defined.

(** ** The number of interpolation steps *)

Lemma getJointDistanceIntegerMax_loop_max {C : Collaborators}
    (angles1 : list double) :
  forall i angles2 delta max_dist m,
    getJointDistanceIntegerMax_loop i angles1 angles2 delta max_dist = Ret m ->
    max_dist <= m
    /\ (max_dist <= INT_MAX -> m <= INT_MAX)
    /\ forall k a1 a2 d,
         nth_error angles1 k = Some a1 -> nth_error angles2 k = Some a2 ->
         i + Z.of_nat k <> 4 -> i + Z.of_nat k <> 6 ->
         int_of_double (floor (ddiv (fabs (dsub a2 a1)) delta)) = Ret d ->
         d <= m.
Proof.
  induction angles1 as [|a1 rest1 IH]; intros i [|a2 rest2] delta max_dist m H;
    cbn [getJointDistanceIntegerMax_loop] in H;
    try (inversion H; subst; repeat split; try lia;
         intros [|k] ? ? ? Hk1 Hk2; cbn in Hk1, Hk2; discriminate).
  apply bind_Ret_inv in H. destruct H as (d0 & Hd0 & H).
  apply bind_Ret_inv in H. destruct H as (dist & Hdist & H).
  apply IH in H. destruct H as (Hle & Hmax & Hall).
  assert (Hint : in_int dist = true).
  { destruct ((i =? 4) || (i =? 6)).
    - eapply int_of_double_in_int; eauto.
    - inversion Hdist; subst. eapply int_of_double_in_int; eauto. }
  unfold in_int in Hint. apply andb_true_iff in Hint. destruct Hint as [_ Hhi].
  apply Z.leb_le in Hhi.
  assert (Hboth : max_dist <= m /\ dist <= m).
  { destruct (max_dist <? dist) eqn:E;
      [apply Z.ltb_lt in E | apply Z.ltb_ge in E]; lia. }
  repeat split; try lia.
  - intros Hmx. apply Hmax. destruct (max_dist <? dist); lia.
  - intros [|k] x1 x2 d Hk1 Hk2 H4 H6 Hd; cbn in Hk1, Hk2.
    + inversion Hk1; inversion Hk2; subst x1 x2.
      replace ((i =? 4) || (i =? 6)) with false in Hdist.
      * rewrite Hd in Hd0. inversion Hd0; subst d0. inversion Hdist; subst. lia.
      * symmetry. apply orb_false_iff. split; apply Z.eqb_neq; lia.
    + apply (Hall k x1 x2 d Hk1 Hk2); try lia. exact Hd.
Qed.

(** X7: The step count of two vectors of one size is a number from 0 to
    [INT_MAX], and no joint other than those of index 4 and 6 moves by more
    steps. *)
Theorem getJointDistanceIntegerMax_bounds {C : Collaborators}
    (angles1 angles2 : list double) (delta : double) (m : Z) :
  getJointDistanceIntegerMax angles1 angles2 delta = Ret m ->
  0 <= m <= INT_MAX
  /\ (length angles1 = length angles2 ->
      forall k a1 a2 d,
        nth_error angles1 k = Some a1 -> nth_error angles2 k = Some a2 ->
        Z.of_nat k <> 4 -> Z.of_nat k <> 6 ->
        int_of_double (floor (ddiv (fabs (dsub a2 a1)) delta)) = Ret d ->
        d <= m).
Proof.
  unfold getJointDistanceIntegerMax.
  destruct (Nat.eqb (length angles1) (length angles2)) eqn:E; cbn [negb].
  - intros H. apply getJointDistanceIntegerMax_loop_max in H.
    destruct H as (Hle & Hmax & Hall). split.
    + split; [exact Hle | apply Hmax; unfold INT_MAX; lia].
    + intros _ k a1 a2 d Hk1 Hk2 H4 H6. apply (Hall k a1 a2 d Hk1 Hk2); lia.
  - intros H. inversion H; subst. split; [unfold INT_MAX; lia|].
    intros Hlen. apply Nat.eqb_neq in E. contradiction.
Qed.

Lemma getJointDistanceIntegerMax_bounds_witness :
  0 <= 4 <= INT_MAX
  /\ (length [double_of_int 0] = length [double_of_int 4] ->
      forall k a1 a2 d,
        nth_error [double_of_int 0] k = Some a1 ->
        nth_error [double_of_int 4] k = Some a2 ->
        Z.of_nat k <> 4 -> Z.of_nat k <> 6 ->
        int_of_double (floor (ddiv (fabs (dsub a2 a1)) (dbl 1 0))) = Ret d ->
        d <= 4).
Proof.
  apply (getJointDistanceIntegerMax_bounds (C := slider free_space)
           [double_of_int 0] [double_of_int 4] (dbl 1 0) 4).
  vm_compute. reflexivity.
Defined.

(** The sign of a rounded number is the sign it was given: the absolute
    value does not depend on it. *)
Lemma binary_round_aux_abs (s s' : bool) (m e : Z) (l : location) :
  SFabs (binary_round_aux prec emax s m e l)
  = SFabs (binary_round_aux prec emax s' m e l).
Proof.
  unfold binary_round_aux.
  destruct (shr_fexp prec emax m e l) as [mrs' e'].
  destruct (shr_fexp prec emax _ e' loc_Exact) as [mrs'' e''].
  destruct (shr_m mrs''); [reflexivity | | reflexivity].
  destruct (e'' <=? emax - prec); reflexivity.
Qed.

Lemma binary_normalize_opp_abs (m e : Z) :
  SFabs (binary_normalize prec emax (- m) e false)
  = SFabs (binary_normalize prec emax m e false).
Proof.
  destruct m as [|p|p]; cbn [Z.opp binary_normalize]; [reflexivity| |];
    unfold binary_round;
    destruct (shl_align p e (fexp prec emax (Zpos (digits2_pos p) + e))) as [mz ez];
    apply binary_round_aux_abs.
Qed.

(** Subtraction the other way round gives the same absolute value. *)
Lemma fabs_dsub_swap (a b : double) : fabs (dsub a b) = fabs (dsub b a).
Proof.
  unfold fabs, dsub, SFsub.
  destruct a as [sa|sa| |sa ma ea]; destruct b as [sb|sb| |sb mb eb];
    try reflexivity;
    try (destruct sa, sb; reflexivity).
  rewrite (Z.min_comm eb ea).
  rewrite <- binary_normalize_opp_abs. f_equal. f_equal. lia.
Qed.

Lemma getJointDistanceIntegerMax_loop_swap {C : Collaborators}
    (angular_symmetric :
       forall a b, fabs (shortest_angular_distance a b)
                   = fabs (shortest_angular_distance b a))
    (angles1 : list double) :
  forall i angles2 delta max_dist,
    getJointDistanceIntegerMax_loop i angles1 angles2 delta max_dist
    = getJointDistanceIntegerMax_loop i angles2 angles1 delta max_dist.
Proof.
  induction angles1 as [|a1 rest1 IH]; intros i [|a2 rest2] delta max_dist;
    try reflexivity.
  cbn [getJointDistanceIntegerMax_loop].
  rewrite (fabs_dsub_swap a2 a1), (angular_symmetric a1 a2).
  destruct (int_of_double _) as [d0| |]; cbn [bind]; try reflexivity.
  destruct (if (i =? 4) || (i =? 6) then _ else _) as [d| |]; cbn [bind];
    try reflexivity.
  apply IH.
Qed.

(** X8: The step count does not depend on the direction of the motion, when the
    angular distance of the continuous joints does not. *)
Theorem getJointDistanceIntegerMax_symmetric {C : Collaborators}
    (angles1 angles2 : list double) (delta : double) :
  (forall a b, fabs (shortest_angular_distance a b)
               = fabs (shortest_angular_distance b a)) ->
  getJointDistanceIntegerMax angles1 angles2 delta
  = getJointDistanceIntegerMax angles2 angles1 delta.
Proof.
  intros Hsym. unfold getJointDistanceIntegerMax.
  rewrite (Nat.eqb_sym (length angles2) (length angles1)).
  destruct (negb _); [reflexivity|].
  now apply getJointDistanceIntegerMax_loop_swap.
Qed.

Lemma getJointDistanceIntegerMax_symmetric_witness :
  getJointDistanceIntegerMax (C := slider free_space)
    [double_of_int 0; double_of_int 7] [double_of_int 4; double_of_int 5] (dbl 1 0)
  = getJointDistanceIntegerMax (C := slider free_space)
      [double_of_int 4; double_of_int 5] [double_of_int 0; double_of_int 7] (dbl 1 0).
Proof.
  apply (getJointDistanceIntegerMax_symmetric (C := slider free_space)).
  intros a b. simpl. apply fabs_dsub_swap.
Defined.

(** ** The straight-line distance *)

Lemma dmul_square_abs (x y : double) :
  SFabs x = SFabs y -> dmul x x = dmul y y.
Proof.
  unfold dmul, SFmul.
  destruct x as [sx|sx| |sx mx ex]; destruct y as [sy|sy| |sy my ey];
    cbn [SFabs]; intros H; try discriminate; try reflexivity.
  - destruct sx, sy; reflexivity.
  - destruct sx, sy; reflexivity.
  - inversion H; subst. destruct sx, sy; reflexivity.
Qed.

(** X9: The distance between two points is the same in both directions, and it
    carries no negative sign. *)
Theorem getEuclideanDistance_symmetric (x1 y1 z1 x2 y2 z2 : double) :
  getEuclideanDistance x1 y1 z1 x2 y2 z2 = getEuclideanDistance x2 y2 z2 x1 y1 z1
  /\ sign_not_negative (getEuclideanDistance x1 y1 z1 x2 y2 z2).
Proof.
  split; [|apply dsqrt_sign].
  unfold getEuclideanDistance.
  rewrite (dmul_square_abs (dsub x1 x2) (dsub x2 x1)) by apply fabs_dsub_swap.
  rewrite (dmul_square_abs (dsub y1 y2) (dsub y2 y1)) by apply fabs_dsub_swap.
  rewrite (dmul_square_abs (dsub z1 z2) (dsub z2 z1)) by apply fabs_dsub_swap.
  reflexivity.
Qed.

(** ** What a valid motion returns *)

(** X4: A valid motion of [maximum_moves] steps returns the joint values of its
    [maximum_moves - 1] interior samples, in order. *)
Theorem interpolateAndCollisionCheck_returns_samples {C : Collaborators}
    (env : Environment) (angles1 angles2 : list double) (maximum_moves : Z)
    (state_values : list (list double)) :
  getJointDistanceIntegerMax angles1 angles2 (interpolation_distance (params_ env))
  = Ret maximum_moves ->
  interpolateAndCollisionCheck env angles1 angles2 = Ret (true, state_values) ->
  let rs_1 := setJointGroupPositions (state_ env) angles1 in
  let rs_2 := setJointGroupPositions (state_ env) angles2 in
  state_values
  = map (fun s => copyJointGroupPositions (snd s))
      (sample_states rs_1 rs_2 maximum_moves (Z.to_nat (maximum_moves - 1)) 1 rs_1)
  /\ Z.of_nat (length state_values) = Z.max 0 (maximum_moves - 1).
Proof.
  intros Hm H rs_1 rs_2. unfold interpolateAndCollisionCheck in H.
  fold rs_1 rs_2 in H.
  destruct (checkCollision rs_2); [discriminate|].
  rewrite Hm in H. cbn [bind] in H.
  rewrite (surjective_pairing (interpolate_loop _ _ _ _ _ _ _)) in H.
  inversion H as [[Hvalid Hvalues]].
  rewrite interpolate_loop_valid in Hvalid.
  rewrite interpolate_loop_values in Hvalues |- * by exact Hvalid.
  cbn [app]. split; [reflexivity|].
  rewrite length_map, sample_states_length. lia.
Qed.

Lemma interpolateAndCollisionCheck_returns_samples_witness :
  [[double_of_int 1]; [double_of_int 2]; [double_of_int 3]]
  = map (fun s => copyJointGroupPositions (Collaborators := slider free_space) (snd s))
      (sample_states (C := slider free_space) [double_of_int 0] [double_of_int 4] 4
         (Z.to_nat (4 - 1)) 1 [double_of_int 0])
  /\ Z.of_nat (length [[double_of_int 1]; [double_of_int 2]; [double_of_int 3]])
     = Z.max 0 (4 - 1).
Proof.
  apply (interpolateAndCollisionCheck_returns_samples (C := slider free_space)
           (fresh_env (slider_params false (dbl 1 0)))
           [double_of_int 0] [double_of_int 4] 4).
  - vm_compute. reflexivity.
  - vm_compute. reflexivity.
Defined.

(** X5: A motion of at most two steps is judged by its end state alone: the one
    interior sample of a two-step motion is the unchecked one. *)
Theorem interpolateAndCollisionCheck_short_motion {C : Collaborators}
    (env : Environment) (angles1 angles2 : list double) (maximum_moves : Z) :
  getJointDistanceIntegerMax angles1 angles2 (interpolation_distance (params_ env))
  = Ret maximum_moves ->
  maximum_moves <= 2 ->
  exists state_values,
    interpolateAndCollisionCheck env angles1 angles2
    = Ret (negb (checkCollision (setJointGroupPositions (state_ env) angles2)),
           state_values).
Proof.
  intros Hm Hshort. unfold interpolateAndCollisionCheck.
  destruct (checkCollision _); [eexists; reflexivity|].
  rewrite Hm. cbn [bind negb].
  destruct (Z.to_nat (maximum_moves - 1)) as [|[|n]] eqn:En; [| |lia].
  - eexists. reflexivity.
  - cbn [interpolate_loop].
    replace (1 =? maximum_moves - 1) with true by (symmetry; apply Z.eqb_eq; lia).
    cbn [negb andb]. eexists. reflexivity.
Qed.

Lemma interpolateAndCollisionCheck_short_motion_witness :
  exists state_values,
    interpolateAndCollisionCheck (C := slider (between (dbl 1 (-1)) (dbl 3 (-1))))
      (fresh_env (slider_params false (dbl 1 0))) [double_of_int 0] [double_of_int 2]
    = Ret (negb (checkCollision
                   (Collaborators := slider (between (dbl 1 (-1)) (dbl 3 (-1))))
                   (setJointGroupPositions
                      (Collaborators := slider (between (dbl 1 (-1)) (dbl 3 (-1))))
                      (state_ (fresh_env (slider_params false (dbl 1 0))))
                      [double_of_int 2])),
           state_values).
Proof.
  apply (interpolateAndCollisionCheck_short_motion
           (C := slider (between (dbl 1 (-1)) (dbl 3 (-1))))
           (fresh_env (slider_params false (dbl 1 0)))
           [double_of_int 0] [double_of_int 2] 2).
  - vm_compute. reflexivity.
  - lia.
Defined.

(** ** Motions of length zero *)

Lemma zero_steps (delta : double) :
  nonzero_number delta = true ->
  int_of_double (floor (ddiv (S754_zero false) delta)) = Ret 0.
Proof. destruct delta as [s|s| |[|] m e]; try discriminate; reflexivity. Qed.

Lemma getJointDistanceIntegerMax_loop_same {C : Collaborators} (delta : double)
    (angles : list double) :
  nonzero_number delta = true ->
  (forall a, finite a = true ->
     fabs (shortest_angular_distance a a) = S754_zero false) ->
  Forall (fun a => finite a = true) angles ->
  forall i, getJointDistanceIntegerMax_loop i angles angles delta 0 = Ret 0.
Proof.
  intros Hdelta Hangular Hfinite. induction Hfinite as [|a rest Ha _ IH]; intros i.
  - reflexivity.
  - cbn [getJointDistanceIntegerMax_loop].
    rewrite (dsub_diag a Ha). cbn [fabs SFabs].
    rewrite (zero_steps delta Hdelta). cbn [bind].
    rewrite (Hangular a Ha), (zero_steps delta Hdelta).
    destruct ((i =? 4) || (i =? 6)); cbn [bind]; apply IH.
Qed.

(** X6: The motion from a configuration to itself takes no step and is valid
    exactly when the configuration is free of collision. *)
Theorem interpolateAndCollisionCheck_same_configuration {C : Collaborators}
    (env : Environment) (angles : list double) :
  nonzero_number (interpolation_distance (params_ env)) = true ->
  (forall a, finite a = true ->
     fabs (shortest_angular_distance a a) = S754_zero false) ->
  Forall (fun a => finite a = true) angles ->
  getJointDistanceIntegerMax angles angles (interpolation_distance (params_ env))
  = Ret 0
  /\ interpolateAndCollisionCheck env angles angles
     = Ret (negb (checkCollision (setJointGroupPositions (state_ env) angles)), []).
Proof.
  intros Hdelta Hangular Hfinite.
  assert (Hm : getJointDistanceIntegerMax angles angles
                 (interpolation_distance (params_ env)) = Ret 0).
  { unfold getJointDistanceIntegerMax. rewrite Nat.eqb_refl. cbn [negb].
    now apply getJointDistanceIntegerMax_loop_same. }
  split; [exact Hm|].
  unfold interpolateAndCollisionCheck. rewrite Hm.
  destruct (checkCollision _); reflexivity.
Qed.

Lemma interpolateAndCollisionCheck_same_configuration_witness :
  getJointDistanceIntegerMax (C := slider wall_at_3)
    [double_of_int 3; double_of_int 1] [double_of_int 3; double_of_int 1]
    (interpolation_distance (params_ (fresh_env (C := slider wall_at_3)
                                        (slider_params false one_tenth))))
  = Ret 0
  /\ interpolateAndCollisionCheck (C := slider wall_at_3)
       (fresh_env (slider_params false one_tenth))
       [double_of_int 3; double_of_int 1] [double_of_int 3; double_of_int 1]
     = Ret (negb (checkCollision (Collaborators := slider wall_at_3)
                    (setJointGroupPositions (Collaborators := slider wall_at_3)
                       (state_ (fresh_env (slider_params false one_tenth)))
                       [double_of_int 3; double_of_int 1])), []).
Proof.
  apply (interpolateAndCollisionCheck_same_configuration (C := slider wall_at_3)
           (fresh_env (slider_params false one_tenth))
           [double_of_int 3; double_of_int 1]).
  - reflexivity.
  - intros a Ha. simpl. rewrite (dsub_diag a Ha). reflexivity.
  - repeat constructor.
Defined.

(** ** The checks of the search *)

Section ConstraintCheckFacts.
Context {C : Collaborators} {K : ConstraintEvaluator}.
Hypothesis last_positions_win :
  forall rs v w,
    setJointGroupPositions (setJointGroupPositions rs v) w
    = setJointGroupPositions rs w.

Lemma interpolateAndCollisionCheck_after_move (env : Environment)
    (v angles1 angles2 : list double) :
  interpolateAndCollisionCheck
    (set_state env (setJointGroupPositions (state_ env) v)) angles1 angles2
  = interpolateAndCollisionCheck env angles1 angles2.
Proof.
  unfold interpolateAndCollisionCheck, set_state, set_request.
  cbn [state_ params_]. rewrite !last_positions_win. reflexivity.
Qed.

Lemma isStateToStateValid_inv (env env' : Environment) (start end_ : list double)
    (ok : bool) :
  isStateToStateValid env start end_ = Ret (ok, env') ->
  env' = set_state env (setJointGroupPositions (state_ env) end_)
  /\ exists path_constraints,
       path_constraint_set_ env = Some path_constraints
       /\ (ok = true ->
           decide path_constraints (state_ env') = true
           /\ exists state_values,
                interpolateAndCollisionCheck env' start end_
                = Ret (true, state_values)).
Proof.
  unfold isStateToStateValid. intros H.
  apply bind_Ret_inv in H. destruct H as (pcs & Hpcs & H).
  cbn [set_state set_request path_constraint_set_] in Hpcs.
  destruct (path_constraint_set_ env) as [pcs'|] eqn:E; [|discriminate].
  inversion Hpcs; subst pcs'.
  destruct (decide pcs _) eqn:Hd; cbn [negb] in H.
  - apply bind_Ret_inv in H. destruct H as ([valid unused] & Hc & H).
    inversion H; subst. split; [reflexivity|]. exists pcs. split; [reflexivity|].
    intros ->. split; [exact Hd | eauto].
  - inversion H; subst. split; [reflexivity|]. exists pcs. split; [reflexivity|].
    discriminate.
Qed.

End ConstraintCheckFacts.

(** X12: An edge that the search accepted ([isStateToStateValid] returned true)
    satisfies the path constraints at its end state and passes the validity
    check of the shortcutter, before the call and after it; the call itself
    only moves [state_] to the end state. *)
Theorem isStateToStateValid_accepted_edge {C : Collaborators}
    {K : ConstraintEvaluator} (env env' : Environment) (start end_ : list double) :
  (forall rs v w,
     setJointGroupPositions (setJointGroupPositions rs v) w
     = setJointGroupPositions rs w) ->
  isStateToStateValid env start end_ = Ret (true, env') ->
  env' = set_state env (setJointGroupPositions (state_ env) end_)
  /\ (exists path_constraints,
        path_constraint_set_ env = Some path_constraints
        /\ decide path_constraints (state_ env') = true)
  /\ isMotionValid env (jtp_of_positions start) (jtp_of_positions end_) = true
  /\ isMotionValid env' (jtp_of_positions start) (jtp_of_positions end_) = true.
Proof.
  intros Hlaw H. apply isStateToStateValid_inv in H.
  destruct H as (-> & pcs & Hpcs & Hok).
  destruct (Hok eq_refl) as (Hd & sv & Hc).
  split; [reflexivity|]. split; [eauto|].
  unfold isMotionValid. cbn [positions jtp_of_positions].
  rewrite Hc. split; [|reflexivity].
  rewrite (interpolateAndCollisionCheck_after_move Hlaw) in Hc.
  rewrite Hc. reflexivity.
Qed.

(** X13: Neither check of the search changes what a later validity check
    answers. *)
Theorem search_checks_keep_validity {C : Collaborators}
    {K : ConstraintEvaluator} (env : Environment) :
  (forall rs v w,
     setJointGroupPositions (setJointGroupPositions rs v) w
     = setJointGroupPositions rs w) ->
  (forall start end_ ok env',
     isStateToStateValid env start end_ = Ret (ok, env') ->
     forall angles1 angles2,
       interpolateAndCollisionCheck env' angles1 angles2
       = interpolateAndCollisionCheck env angles1 angles2)
  /\ (forall angles ok env',
        isStateGoal env angles = Ret (ok, env') ->
        forall angles1 angles2,
          interpolateAndCollisionCheck env' angles1 angles2
          = interpolateAndCollisionCheck env angles1 angles2).
Proof.
  intros Hlaw. split.
  - intros start end_ ok env' H angles1 angles2.
    apply isStateToStateValid_inv in H. destruct H as (-> & _).
    apply (interpolateAndCollisionCheck_after_move Hlaw).
  - intros angles ok env' H angles1 angles2. unfold isStateGoal in H.
    apply bind_Ret_inv in H. destruct H as (gcs & _ & H).
    inversion H; subst. apply (interpolateAndCollisionCheck_after_move Hlaw).
Qed.

Lemma isStateToStateValid_accepted_edge_witness :
  let env := searching_env free_space (dbl 1 0) (double_of_int 4) in
  match isStateToStateValid (K := slider_constraints free_space) env
          [double_of_int 0] [double_of_int 4] with
  | Ret (true, env') =>
      env' = set_state env
               (setJointGroupPositions (Collaborators := slider free_space)
                  (state_ env) [double_of_int 4])
      /\ (exists path_constraints,
            path_constraint_set_ env = Some path_constraints
            /\ decide (ConstraintEvaluator := slider_constraints free_space)
                 path_constraints (state_ env') = true)
      /\ isMotionValid env (jtp_of_positions [double_of_int 0])
           (jtp_of_positions [double_of_int 4]) = true
      /\ isMotionValid env' (jtp_of_positions [double_of_int 0])
           (jtp_of_positions [double_of_int 4]) = true
  | _ => False
  end.
Proof.
  cbv zeta.
  assert (Hok :
    match isStateToStateValid (K := slider_constraints free_space)
            (searching_env free_space (dbl 1 0) (double_of_int 4))
            [double_of_int 0] [double_of_int 4] with
    | Ret (true, _) => True
    | _ => False
    end) by (vm_compute; exact I).
  destruct (isStateToStateValid _ _ _) as [[[|] env']| |] eqn:H; try contradiction.
  apply (isStateToStateValid_accepted_edge (C := slider free_space)
           (K := slider_constraints free_space) _ _ _ _ (fun _ _ _ => eq_refl) H).
Defined.

Lemma search_checks_keep_validity_witness :
  let env := searching_env free_space (dbl 1 0) (double_of_int 4) in
  (forall start end_ ok env',
     isStateToStateValid (K := slider_constraints free_space) env start end_
     = Ret (ok, env') ->
     forall angles1 angles2,
       interpolateAndCollisionCheck env' angles1 angles2
       = interpolateAndCollisionCheck env angles1 angles2)
  /\ (forall angles ok env',
        isStateGoal (K := slider_constraints free_space) env angles = Ret (ok, env') ->
        forall angles1 angles2,
          interpolateAndCollisionCheck env' angles1 angles2
          = interpolateAndCollisionCheck env angles1 angles2).
Proof.
  cbv zeta.
  apply (search_checks_keep_validity (C := slider free_space)
           (K := slider_constraints free_space)
           (searching_env free_space (dbl 1 0) (double_of_int 4))).
  reflexivity.
Defined.

(** ** The setup, step by step *)

Lemma fold_addMotionPrimitive_members {C : Collaborators}
    (l : list MotionPrimitive) :
  forall env : Environment,
    params_ (fold_left addMotionPrimitive l env) = params_ env
    /\ state_ (fold_left addMotionPrimitive l env) = state_ env
    /\ state_ID_to_coord_table_ (fold_left addMotionPrimitive l env)
       = state_ID_to_coord_table_ env
    /\ start_ (fold_left addMotionPrimitive l env) = start_ env
    /\ goal_ (fold_left addMotionPrimitive l env) = goal_ env
    /\ bfs_ (fold_left addMotionPrimitive l env) = bfs_ env
    /\ goal_constraint_set_ (fold_left addMotionPrimitive l env)
       = goal_constraint_set_ env
    /\ path_constraint_set_ (fold_left addMotionPrimitive l env)
       = path_constraint_set_ env.
Proof.
  induction l as [|p l IH]; intros env; cbn [fold_left].
  - repeat split.
  - exact (IH (addMotionPrimitive env p)).
Qed.

Lemma continuousXYZtoDiscreteXYZ_in_int (params_ : SBPLPlanningParams)
    (X Y Z : double) (ok : bool) (cell : BinNums.Z * BinNums.Z * BinNums.Z) :
  continuousXYZtoDiscreteXYZ params_ X Y Z = Ret (ok, cell) ->
  cell_in_int cell = true.
Proof.
  unfold continuousXYZtoDiscreteXYZ. intros H.
  apply bind_Ret_inv in H. destruct H as (x & Hx & H).
  apply bind_Ret_inv in H. destruct H as (y & Hy & H).
  apply bind_Ret_inv in H. destruct H as (z & Hz & H).
  inversion H; subst. cbn [cell_in_int].
  rewrite (int_of_double_in_int _ _ Hx), (int_of_double_in_int _ _ Hy),
    (int_of_double_in_int _ _ Hz). reflexivity.
Qed.

Lemma continuousXYZtoDiscreteXYZ_cases (params_ : SBPLPlanningParams)
    (X Y Z : double) :
  conversion_fault_only (continuousXYZtoDiscreteXYZ params_ X Y Z).
Proof.
  unfold continuousXYZtoDiscreteXYZ.
  destruct (int_of_double_cases
              (ddiv (dsub X (field_origin_x params_)) (field_resolution params_)))
    as [(x & ->) | ->]; [|right; reflexivity].
  destruct (int_of_double_cases
              (ddiv (dsub Y (field_origin_y params_)) (field_resolution params_)))
    as [(y & ->) | ->]; [|right; reflexivity].
  destruct (int_of_double_cases
              (ddiv (dsub Z (field_origin_z params_)) (field_resolution params_)))
    as [(z & ->) | ->]; [|right; reflexivity].
  left. cbn [bind]. eauto.
Qed.

Lemma getEndEffectorCoord_inv {C : Collaborators} (params_ : SBPLPlanningParams)
    (state state' : RobotState) (angles : list double) (ok : bool) (cell : Z * Z * Z) :
  getEndEffectorCoord params_ state angles = Ret (ok, cell, state') ->
  ok = true /\ state' = setJointGroupPositions state angles
  /\ cell_in_int cell = true.
Proof.
  intros H. split; [eapply getEndEffectorCoord_true; exact H|].
  unfold getEndEffectorCoord in H.
  destruct (getGlobalLinkTransform _) as [[px py] pz].
  apply bind_Ret_inv in H. destruct H as ([ok' cell'] & Hc & H).
  inversion H; subst. split; [reflexivity|].
  eapply continuousXYZtoDiscreteXYZ_in_int. exact Hc.
Qed.

Lemma getEndEffectorCoord_cases {C : Collaborators} (params_ : SBPLPlanningParams)
    (state : RobotState) (angles : list double) :
  conversion_fault_only (getEndEffectorCoord params_ state angles).
Proof.
  unfold getEndEffectorCoord.
  destruct (getGlobalLinkTransform _) as [[px py] pz].
  destruct (continuousXYZtoDiscreteXYZ_cases params_ px py pz)
    as [([ok cell] & ->) | ->]; [|right; reflexivity].
  left. cbn [bind]. eauto.
Qed.

(** What the goal part of the setup hands on when it does not return early. *)
Lemma setup_goal_inr {C : Collaborators} (env env2 : Environment)
    (goal0 : Constraints) (mres : MoveItErrorCodes)
    (start_joint_values goal_joint_values : list double) (goal_coords : list Z)
    (goal_xyz : Z * Z * Z) :
  setup_goal env goal0 mres start_joint_values
  = Ret (inr (goal_joint_values, goal_coords, goal_xyz, env2)) ->
  params_ env2 = params_ env
  /\ state_ID_to_coord_table_ env2 = state_ID_to_coord_table_ env
  /\ start_ env2 = start_ env
  /\ bfs_ env2 = bfs_ env
  /\ cell_in_int goal_xyz = true
  /\ match joint_constraints goal0 with
     | [] =>
         position_constraints goal0 <> []
         /\ goal_joint_values
            = repeat (S754_zero false) (length start_joint_values)
     | _ :: _ =>
         checkCollision (state_ env) = false
         /\ goal_joint_values = copyJointGroupPositions (state_ env)
     end.
Proof.
  unfold setup_goal.
  destruct (joint_constraints goal0) as [|jc jcs]; cbn [length Z.of_nat Z.ltb Z.compare].
  - destruct (position_constraints goal0) as [|pc pcs]; [discriminate|].
    destruct (target_point_offset pc) as [[tx ty] tz]. intros H.
    apply bind_Ret_inv in H. destruct H as ([ok cell] & Hc & H).
    inversion H; subst.
    repeat split; try reflexivity; try discriminate.
    eapply continuousXYZtoDiscreteXYZ_in_int. exact Hc.
  - destruct (checkCollision (state_ env)); [discriminate|]. intros H.
    apply bind_Ret_inv in H. destruct H as ([[ok cell] state'] & Hc & H).
    apply getEndEffectorCoord_inv in Hc. destruct Hc as (-> & -> & Hcell).
    cbn [negb] in H.
    destruct (use_joint_snap _); inversion H; subst; repeat split; assumption.
Qed.

(** A setup that returns true, step by step: the start is free of collision,
    the table has grown by the start and goal entries, and every member that
    the search reads is set from the request. *)
Lemma setupForMotionPlan_true_inv {C : Collaborators} (env env' : Environment)
    (mreq : MotionPlanRequest) (mres code : MoveItErrorCodes)
    (params : SBPLPlanningParams) :
  setupForMotionPlan env mreq mres params = Ret (true, code, env') ->
  code = mres
  /\ checkCollision (request_start_state mreq) = false
  /\ exists goal0 start goal,
       hd_error (goal_constraints mreq) = Some goal0
       /\ params_ env' = params
       /\ state_ID_to_coord_table_ env'
          = state_ID_to_coord_table_ env ++ [start; goal]
       /\ start_ env' = Some start
       /\ goal_ env' = Some goal
       /\ stateID start = Z.of_nat (length (state_ID_to_coord_table_ env))
       /\ stateID goal = Z.of_nat (length (state_ID_to_coord_table_ env)) + 1
       /\ angles start = copyJointGroupPositions (request_start_state mreq)
       /\ length getActiveJointModelNames = length (angles start)
       /\ length getActiveJointModelNames = length (angles goal)
       /\ cell_in_int (xyz start) = true
       /\ cell_in_int (xyz goal) = true
       /\ bfs_ env' = (if use_bfs params
                       then Some (BFS_3D_run params (xyz goal))
                       else bfs_ env)
       /\ goal_constraint_set_ env' = Some goal0
       /\ path_constraint_set_ env' = Some (path_constraints mreq)
       /\ match joint_constraints goal0 with
          | [] =>
              position_constraints goal0 <> []
              /\ angles goal = repeat (S754_zero false) (length (angles start))
          | _ :: _ =>
              checkCollision (request_goal_state mreq goal0) = false
              /\ angles goal
                 = copyJointGroupPositions (request_goal_state mreq goal0)
          end.
Proof.
  unfold setupForMotionPlan.
  change (robotStateMsgToRobotState (start_state mreq) getCurrentState)
    with (request_start_state mreq).
  cbv zeta. cbn [set_request params_ state_].
  destruct (checkCollision (request_start_state mreq)) eqn:Hfree; [discriminate|].
  destruct (fold_addMotionPrimitive_members (prims params)
              (set_request env params (request_start_state mreq)))
    as (F1 & F2 & F3 & F4 & F5 & F6 & F7 & F8).
  cbn [set_request params_ state_ state_ID_to_coord_table_ start_ goal_ bfs_
       goal_constraint_set_ path_constraint_set_] in F1, F2, F3, F4, F5, F6, F7, F8.
  remember (fold_left addMotionPrimitive (prims params)
              (set_request env params (request_start_state mreq))) as e1 eqn:He1.
  clear He1.
  rewrite F1, F2. intros H.
  apply bind_Ret_inv in H. destruct H as ([[ok1 start_xyz] st1] & Hs & H).
  apply getEndEffectorCoord_inv in Hs. destruct Hs as (-> & -> & Hscell).
  cbn [negb] in H.
  apply bind_Ret_inv in H. destruct H as (goal0 & Hg0 & H).
  apply bind_Ret_inv in H. destruct H as (r & Hr & H).
  destruct r as [[[ok1 code1] env1] | [[[gjv gc] gxyz] env2]].
  { inversion H; subst. apply setup_goal_codes in Hr. destruct Hr; discriminate. }
  destruct (_ || _) eqn:Hlen; [discriminate|].
  apply orb_false_iff in Hlen. destruct Hlen as [Hl1 Hl2].
  apply negb_false_iff in Hl1, Hl2. apply Nat.eqb_eq in Hl1, Hl2.
  inversion H; subst code env'. clear H.
  apply setup_goal_inr in Hr.
  cbn [set_state set_request set_start params_ state_ state_ID_to_coord_table_
       start_ goal_ bfs_ goal_constraint_set_ path_constraint_set_ addHashEntry
       fst snd] in Hr.
  rewrite ?F1, ?F2, ?F3, ?F4, ?F6 in Hr.
  destruct Hr as (P1 & P2 & P3 & P4 & Hgcell & Hgoal).
  split; [reflexivity|]. split; [reflexivity|].
  exists goal0,
    {| stateID := Z.of_nat (length (state_ID_to_coord_table_ env));
       coord := convertJointAnglesToCoord
                  (copyJointGroupPositions (request_start_state mreq));
       angles := copyJointGroupPositions (request_start_state mreq);
       xyz := start_xyz |},
    {| stateID := Z.of_nat (length (state_ID_to_coord_table_ env2));
       coord := gc; angles := gjv; xyz := gxyz |}.
  cbn [set_goal params_ state_ state_ID_to_coord_table_ start_ goal_ bfs_
       goal_constraint_set_ path_constraint_set_ addHashEntry fst snd
       angles xyz stateID].
  rewrite P1, P2, P3, P4, <- app_assoc.
  split.
  { change 0 with (Z.of_nat 0) in Hg0. rewrite index_nth_error in Hg0.
    destruct (goal_constraints mreq) as [|g gs]; cbn in Hg0 |- *;
      [discriminate | congruence]. }
  repeat (split; [first [reflexivity | assumption
                        | rewrite length_app; cbn [length]; lia]|]).
  exact Hgoal.
Qed.

(** X14: A successful setup, as the search sees it: the error code of the
    response is untouched, the start state of the request is free of
    collision, the start and goal entries, both constraint sets and (in BFS
    mode) the search from the goal cell are in place, and the goal is either
    a collision-free joint goal or a position goal. *)
Theorem setupForMotionPlan_success {C : Collaborators} (env env' : Environment)
    (mreq : MotionPlanRequest) (mres code : MoveItErrorCodes)
    (params : SBPLPlanningParams) :
  setupForMotionPlan env mreq mres params = Ret (true, code, env') ->
  code = mres
  /\ params_ env' = params
  /\ checkCollision (request_start_state mreq) = false
  /\ exists goal0 start goal,
       hd_error (goal_constraints mreq) = Some goal0
       /\ start_ env' = Some start
       /\ goal_ env' = Some goal
       /\ angles start = copyJointGroupPositions (request_start_state mreq)
       /\ length (angles goal) = length (angles start)
       /\ goal_constraint_set_ env' = Some goal0
       /\ path_constraint_set_ env' = Some (path_constraints mreq)
       /\ (use_bfs params = true ->
           bfs_ env' = Some (BFS_3D_run params (xyz goal)))
       /\ match joint_constraints goal0 with
          | [] =>
              position_constraints goal0 <> []
              /\ angles goal = repeat (S754_zero false) (length (angles start))
          | _ :: _ =>
              checkCollision (request_goal_state mreq goal0) = false
              /\ angles goal
                 = copyJointGroupPositions (request_goal_state mreq goal0)
          end.
Proof.
  intros H. apply setupForMotionPlan_true_inv in H.
  destruct H as (Hcode & Hfree & goal0 & start & goal & Hhd & Hp & _ & Hs & Hg
                 & _ & _ & Ha & Hl1 & Hl2 & _ & _ & Hbfs & Hgc & Hpc & Hgoal).
  split; [exact Hcode|]. split; [exact Hp|]. split; [exact Hfree|].
  exists goal0, start, goal.
  repeat (split; [first [assumption | congruence]|]).
  split; [|exact Hgoal].
  intros Hmode. rewrite Hbfs, Hmode. reflexivity.
Qed.

Lemma setupForMotionPlan_success_witness :
  let params := slider_params true (dbl 1 0) in
  let mreq := slider_request free_space (double_of_int 0) (double_of_int 4) in
  match setupForMotionPlan (C := slider free_space) (fresh_env params) mreq
          (other_error_code 0) params with
  | Ret (true, code, env') =>
      code = other_error_code 0
      /\ params_ env' = params
      /\ checkCollision (request_start_state mreq) = false
      /\ exists goal0 start goal,
           hd_error (goal_constraints mreq) = Some goal0
           /\ start_ env' = Some start
           /\ goal_ env' = Some goal
           /\ angles start = copyJointGroupPositions (request_start_state mreq)
           /\ length (angles goal) = length (angles start)
           /\ goal_constraint_set_ env' = Some goal0
           /\ path_constraint_set_ env' = Some (path_constraints mreq)
           /\ (use_bfs params = true ->
               bfs_ env' = Some (BFS_3D_run params (xyz goal)))
           /\ match joint_constraints goal0 with
              | [] =>
                  position_constraints goal0 <> []
                  /\ angles goal
                     = repeat (S754_zero false) (length (angles start))
              | _ :: _ =>
                  checkCollision (request_goal_state mreq goal0) = false
                  /\ angles goal
                     = copyJointGroupPositions (request_goal_state mreq goal0)
              end
  | _ => False
  end.
Proof.
  cbv zeta.
  assert (Hok :
    match setupForMotionPlan (C := slider free_space)
            (fresh_env (slider_params true (dbl 1 0)))
            (slider_request free_space (double_of_int 0) (double_of_int 4))
            (other_error_code 0) (slider_params true (dbl 1 0)) with
    | Ret (true, _, _) => True
    | _ => False
    end) by (vm_compute; exact I).
  destruct (setupForMotionPlan _ _ _ _) as [[[[|] code] env']| |] eqn:H;
    try contradiction.
  apply (setupForMotionPlan_success (C := slider free_space) _ _ _ _ _ _ H).
Defined.

(** X17: After a successful setup every member that a query of the search
    dereferences is there: [isStateGoal] returns, [isStateToStateValid]
    returns unless a step count is out of range, the heuristic never reads a
    null member, and in BFS mode it is the distance of the search that was
    run from the goal cell, times [cost_per_cell]. *)
Theorem setupForMotionPlan_then_queries {C : Collaborators}
    {K : ConstraintEvaluator} (env env' : Environment)
    (mreq : MotionPlanRequest) (mres code : MoveItErrorCodes)
    (params : SBPLPlanningParams) :
  setupForMotionPlan env mreq mres params = Ret (true, code, env') ->
  (forall angles, exists ok env'', isStateGoal env' angles = Ret (ok, env''))
  /\ (forall start end_, conversion_fault_only (isStateToStateValid env' start end_))
  /\ (forall x y z, getEndEffectorHeuristic env' x y z <> Fault NullPointer)
  /\ (use_bfs params = true ->
      exists goal,
        goal_ env' = Some goal
        /\ forall x y z,
             getEndEffectorHeuristic env' x y z
             = int_arith (getDistance (BFS_3D_run params (xyz goal)) x y z
                          * cost_per_cell params)).
Proof.
  intros H. apply setupForMotionPlan_true_inv in H.
  destruct H as (_ & _ & goal0 & start & goal & _ & Hp & _ & _ & Hg
                 & _ & _ & _ & _ & _ & _ & _ & Hbfs & Hgc & Hpc & _).
  split; [|split; [|split]].
  - intros angles. unfold isStateGoal.
    cbn [set_state set_request goal_constraint_set_]. rewrite Hgc.
    cbn [deref bind]. eauto.
  - intros start_angles end_angles. unfold isStateToStateValid.
    cbn [set_state set_request path_constraint_set_]. rewrite Hpc.
    cbn [deref bind]. destruct (negb _); [left; eauto|].
    match goal with
    | |- context [interpolateAndCollisionCheck ?e ?a ?b] =>
        destruct (interpolateAndCollisionCheck_cases e a b)
          as [([valid unused] & ->) | ->]
    end.
    + left. cbn [bind]. eauto.
    + right. reflexivity.
  - intros x y z. unfold getEndEffectorHeuristic. rewrite Hp, Hbfs, Hg.
    destruct (use_bfs params); cbn [deref bind].
    + unfold int_arith. destruct (in_int _); discriminate.
    + destruct (xyz goal) as [[gx gy] gz]. intros E.
      apply int_of_double_faults in E. discriminate.
  - intros Hmode. exists goal. split; [exact Hg|]. intros x y z.
    unfold getEndEffectorHeuristic. rewrite Hp, Hbfs, Hmode. reflexivity.
Qed.

Lemma setupForMotionPlan_then_queries_witness :
  match setupForMotionPlan (C := slider free_space)
          (fresh_env (slider_params true (dbl 1 0)))
          (slider_request free_space (double_of_int 0) (double_of_int 4))
          (other_error_code 0) (slider_params true (dbl 1 0)) with
  | Ret (true, code, env') =>
      (forall angles, exists ok env'',
         isStateGoal (K := slider_constraints free_space) env' angles
         = Ret (ok, env''))
      /\ (forall start end_,
            conversion_fault_only
              (isStateToStateValid (K := slider_constraints free_space)
                 env' start end_))
      /\ (forall x y z, getEndEffectorHeuristic env' x y z <> Fault NullPointer)
      /\ (use_bfs (slider_params true (dbl 1 0)) = true ->
          exists goal,
            goal_ env' = Some goal
            /\ forall x y z,
                 getEndEffectorHeuristic env' x y z
                 = int_arith
                     (getDistance (Collaborators := slider free_space)
                        (BFS_3D_run (Collaborators := slider free_space)
                           (slider_params true (dbl 1 0)) (xyz goal)) x y z
                      * cost_per_cell (slider_params true (dbl 1 0))))
  | _ => False
  end.
Proof.
  assert (Hok :
    match setupForMotionPlan (C := slider free_space)
            (fresh_env (slider_params true (dbl 1 0)))
            (slider_request free_space (double_of_int 0) (double_of_int 4))
            (other_error_code 0) (slider_params true (dbl 1 0)) with
    | Ret (true, _, _) => True
    | _ => False
    end) by (vm_compute; exact I).
  destruct (setupForMotionPlan _ _ _ _) as [[[[|] code] env']| |] eqn:H;
    try contradiction.
  apply (setupForMotionPlan_then_queries (C := slider free_space)
           (K := slider_constraints free_space) _ _ _ _ _ _ H).
Defined.

(** X18: Without the search, the heuristic of the goal cell that a successful
    setup stored is zero, for a finite resolution and cost per metre. *)
Theorem setupForMotionPlan_goal_heuristic_zero {C : Collaborators}
    (env env' : Environment) (mreq : MotionPlanRequest)
    (mres code : MoveItErrorCodes) (params : SBPLPlanningParams) :
  setupForMotionPlan env mreq mres params = Ret (true, code, env') ->
  use_bfs params = false ->
  finite (field_resolution params) = true ->
  finite (cost_per_meter params) = true ->
  exists goal gx gy gz,
    goal_ env' = Some goal
    /\ xyz goal = (gx, gy, gz)
    /\ getEndEffectorHeuristic env' gx gy gz = Ret 0.
Proof.
  intros H Hmode Hres Hcpm. apply setupForMotionPlan_true_inv in H.
  destruct H as (_ & _ & goal0 & start & goal & _ & Hp & _ & _ & Hg
                 & _ & _ & _ & _ & _ & _ & Hcell & _).
  destruct (xyz goal) as [[gx gy] gz] eqn:Hxyz.
  exists goal, gx, gy, gz. split; [exact Hg|]. split; [exact Hxyz|].
  cbn [cell_in_int] in Hcell.
  apply andb_true_iff in Hcell. destruct Hcell as [Hcell Hz].
  apply andb_true_iff in Hcell. destruct Hcell as [Hx Hy].
  unfold getEndEffectorHeuristic. rewrite Hp, Hmode, Hg. cbn [deref bind].
  rewrite Hxyz.
  rewrite getEuclideanDistance_diag by (apply double_of_int_finite; assumption).
  destruct (dmul_zero_finite false _ Hres) as (s1 & ->).
  destruct (dmul_zero_finite s1 _ Hcpm) as (s2 & ->).
  reflexivity.
Qed.

Lemma setupForMotionPlan_goal_heuristic_zero_witness :
  match setupForMotionPlan (C := slider free_space)
          (fresh_env (slider_params false (dbl 1 0)))
          (slider_request free_space (double_of_int 0) (double_of_int 4))
          (other_error_code 0) (slider_params false (dbl 1 0)) with
  | Ret (true, code, env') =>
      exists goal gx gy gz,
        goal_ env' = Some goal
        /\ xyz goal = (gx, gy, gz)
        /\ getEndEffectorHeuristic env' gx gy gz = Ret 0
  | _ => False
  end.
Proof.
  assert (Hok :
    match setupForMotionPlan (C := slider free_space)
            (fresh_env (slider_params false (dbl 1 0)))
            (slider_request free_space (double_of_int 0) (double_of_int 4))
            (other_error_code 0) (slider_params false (dbl 1 0)) with
    | Ret (true, _, _) => True
    | _ => False
    end) by (vm_compute; exact I).
  destruct (setupForMotionPlan _ _ _ _) as [[[[|] code] env']| |] eqn:H;
    try contradiction.
  apply (setupForMotionPlan_goal_heuristic_zero (C := slider free_space)
           _ _ _ _ _ _ H); reflexivity.
Defined.

(** X16: A request without goal constraints: the setup reports a start state in
    collision, and otherwise it does not return at all: it reads the first
    element of the empty [goal_constraints] (or, before that, converts a
    start cell that is no [int]). *)
Theorem setupForMotionPlan_without_goal {C : Collaborators} (env : Environment)
    (mreq : MotionPlanRequest) (mres : MoveItErrorCodes)
    (params : SBPLPlanningParams) :
  goal_constraints mreq = [] ->
  (checkCollision (request_start_state mreq) = true ->
   setupForMotionPlan env mreq mres params
   = Ret (false, START_STATE_IN_COLLISION,
          set_request env params (request_start_state mreq)))
  /\ (checkCollision (request_start_state mreq) = false ->
      setupForMotionPlan env mreq mres params = Fault OutOfBounds
      \/ setupForMotionPlan env mreq mres params = Fault NotRepresentable).
Proof.
  intros Hnone. unfold setupForMotionPlan.
  change (robotStateMsgToRobotState (start_state mreq) getCurrentState)
    with (request_start_state mreq).
  cbv zeta. split; intros Hc; rewrite Hc; [reflexivity|].
  match goal with
  | |- context [getEndEffectorCoord ?p ?s ?a] =>
      destruct (getEndEffectorCoord_cases p s a) as [([[ok cell] st] & E) | E];
        [pose proof (getEndEffectorCoord_true _ _ _ _ _ _ E); subst ok|];
        rewrite E
  end.
  - left. cbn [bind negb]. rewrite Hnone. reflexivity.
  - right. reflexivity.
Qed.

Lemma setupForMotionPlan_without_goal_witness :
  (checkCollision (Collaborators := slider free_space)
     (request_start_state (slider_request_no_goal free_space (double_of_int 0)))
   = true ->
   setupForMotionPlan (C := slider free_space)
     (fresh_env (slider_params false (dbl 1 0)))
     (slider_request_no_goal free_space (double_of_int 0))
     (other_error_code 0) (slider_params false (dbl 1 0))
   = Ret (false, START_STATE_IN_COLLISION,
          set_request (fresh_env (slider_params false (dbl 1 0)))
            (slider_params false (dbl 1 0))
            (request_start_state
               (slider_request_no_goal free_space (double_of_int 0)))))
  /\ (checkCollision (Collaborators := slider free_space)
        (request_start_state (slider_request_no_goal free_space (double_of_int 0)))
      = false ->
      setupForMotionPlan (C := slider free_space)
        (fresh_env (slider_params false (dbl 1 0)))
        (slider_request_no_goal free_space (double_of_int 0))
        (other_error_code 0) (slider_params false (dbl 1 0))
      = Fault OutOfBounds
      \/ setupForMotionPlan (C := slider free_space)
           (fresh_env (slider_params false (dbl 1 0)))
           (slider_request_no_goal free_space (double_of_int 0))
           (other_error_code 0) (slider_params false (dbl 1 0))
         = Fault NotRepresentable).
Proof.
  apply (setupForMotionPlan_without_goal (C := slider free_space)
           (fresh_env (slider_params false (dbl 1 0)))
           (slider_request_no_goal free_space (double_of_int 0))
           (other_error_code 0) (slider_params false (dbl 1 0))).
  reflexivity.
Defined.

(** ** The setup and the reconstruction together *)

Lemma index_app_entries {A : Type} (v : list A) (a b : A) :
  index (v ++ [a; b]) (Z.of_nat (length v)) = Ret a
  /\ index (v ++ [a; b]) (Z.of_nat (length v) + 1) = Ret b.
Proof.
  split.
  - rewrite index_nth_error, nth_error_app2 by lia.
    rewrite Nat.sub_diag. reflexivity.
  - replace (Z.of_nat (length v) + 1) with (Z.of_nat (S (length v))) by lia.
    rewrite index_nth_error, nth_error_app2 by lia.
    replace (S (length v) - length v)%nat with 1%nat by lia. reflexivity.
Qed.

(** X19: The IDs of the start and goal entries of a successful setup, handed to
    the reconstruction, give the start and goal joint angles of the request
    (while the table stays within the [int] range). *)
Theorem setupForMotionPlan_then_populate {C : Collaborators}
    (env env' : Environment) (mreq : MotionPlanRequest)
    (mres code : MoveItErrorCodes) (params : SBPLPlanningParams)
    (traj : JointTrajectory) :
  setupForMotionPlan env mreq mres params = Ret (true, code, env') ->
  Z.of_nat (length (state_ID_to_coord_table_ env)) + 2 <= INT_MAX ->
  exists start goal traj',
    start_ env' = Some start
    /\ goal_ env' = Some goal
    /\ populateTrajectoryFromStateIDSequence env' [stateID start; stateID goal] traj
       = Ret (true, traj')
    /\ joint_names traj' = getActiveJointModelNames
    /\ map positions (points traj') = [angles start; angles goal].
Proof.
  intros H Hfits. apply setupForMotionPlan_true_inv in H.
  destruct H as (_ & _ & goal0 & start & goal & _ & _ & Htable & Hs & Hg
                 & Hsid & Hgid & _).
  assert (Hfits' : Z.of_nat (length (state_ID_to_coord_table_ env')) <= INT_MAX).
  { rewrite Htable, length_app. cbn [length]. lia. }
  destruct (index_app_entries (state_ID_to_coord_table_ env) start goal)
    as [Is Ig].
  rewrite <- Htable, <- Hsid in Is. rewrite <- Htable, <- Hgid in Ig.
  exists start, goal. unfold populateTrajectoryFromStateIDSequence.
  destruct (resize 2 (points traj)) as [|p0 [|p1 [|p2 rest]]] eqn:Hr;
    try (apply (f_equal (@length _)) in Hr; rewrite resize_length in Hr;
         discriminate).
  cbn [length]. rewrite Hr. cbn [populate_loop].
  rewrite (populate_bound _ Hfits'). cbn [bind].
  replace (Z.of_nat (length (state_ID_to_coord_table_ env')) - 1 <? stateID start)
    with false
    by (symmetry; apply Z.ltb_ge; rewrite Htable, length_app; cbn [length]; lia).
  replace (Z.of_nat (length (state_ID_to_coord_table_ env')) - 1 <? stateID goal)
    with false
    by (symmetry; apply Z.ltb_ge; rewrite Htable, length_app; cbn [length]; lia).
  rewrite Is, Ig. cbn [bind].
  eexists. repeat split; [exact Hs | exact Hg].
Qed.

Lemma setupForMotionPlan_then_populate_witness :
  match setupForMotionPlan (C := slider free_space)
          (fresh_env (slider_params false (dbl 1 0)))
          (slider_request free_space (double_of_int 0) (double_of_int 4))
          (other_error_code 0) (slider_params false (dbl 1 0)) with
  | Ret (true, code, env') =>
      exists start goal traj',
        start_ env' = Some start
        /\ goal_ env' = Some goal
        /\ populateTrajectoryFromStateIDSequence env'
             [stateID start; stateID goal] (trajectory [])
           = Ret (true, traj')
        /\ joint_names traj'
           = getActiveJointModelNames (Collaborators := slider free_space)
        /\ map positions (points traj') = [angles start; angles goal]
  | _ => False
  end.
Proof.
  assert (Hok :
    match setupForMotionPlan (C := slider free_space)
            (fresh_env (slider_params false (dbl 1 0)))
            (slider_request free_space (double_of_int 0) (double_of_int 4))
            (other_error_code 0) (slider_params false (dbl 1 0)) with
    | Ret (true, _, _) => True
    | _ => False
    end) by (vm_compute; exact I).
  destruct (setupForMotionPlan _ _ _ _) as [[[[|] code] env']| |] eqn:H;
    try contradiction.
  apply (setupForMotionPlan_then_populate (C := slider free_space)
           _ _ _ _ _ _ (trajectory []) H).
  vm_compute. discriminate.
Defined.

(** ** What the reconstruction writes *)

Lemma populate_loop_frame (table : list EnvChain3DHashEntry) :
  forall state_ids pts ok pts',
    populate_loop table state_ids pts = Ret (ok, pts') ->
    Forall2 same_but_positions pts pts'.
Proof.
  assert (Hrefl : forall pts, Forall2 same_but_positions pts pts).
  { induction pts; constructor; [repeat split | assumption]. }
  induction state_ids as [|id ids IH]; intros pts ok pts' H.
  - destruct pts; inversion H; subst; apply Hrefl.
  - destruct pts as [|p rest]; [inversion H; subst; constructor|].
    cbn [populate_loop] in H.
    apply bind_Ret_inv in H. destruct H as (bound & _ & H).
    destruct (bound <? id); [inversion H; subst; apply Hrefl|].
    apply bind_Ret_inv in H. destruct H as (entry & _ & H).
    apply bind_Ret_inv in H. destruct H as ([ok' rest'] & Hloop & H).
    inversion H; subst. constructor.
    + repeat split.
    + eapply IH. exact Hloop.
Qed.

(** X11: Whatever the reconstruction answers, the trajectory it leaves has the
    active joint names and one waypoint per ID, and apart from the positions
    every waypoint is as [resize] left it: velocities, accelerations, effort
    and time of the waypoints that were already there are kept. *)
Theorem populate_writes_positions_only {C : Collaborators} (env : Environment)
    (state_ids : list Z) (traj traj' : JointTrajectory) (ok : bool) :
  populateTrajectoryFromStateIDSequence env state_ids traj = Ret (ok, traj') ->
  joint_names traj' = getActiveJointModelNames
  /\ length (points traj') = length state_ids
  /\ Forall2 same_but_positions
       (resize (length state_ids) (points traj)) (points traj').
Proof.
  unfold populateTrajectoryFromStateIDSequence. intros H.
  apply bind_Ret_inv in H. destruct H as ([ok' pts'] & Hloop & H).
  inversion H; subst. cbn [joint_names points].
  apply populate_loop_frame in Hloop.
  split; [reflexivity|]. split; [|exact Hloop].
  apply Forall2_length in Hloop. rewrite resize_length in Hloop. congruence.
Qed.

Lemma populate_writes_positions_only_witness :
  let traj := {| joint_names := []; points := [moving_waypoint 7 1] |} in
  let traj' := {| joint_names := ["slide"%string];
                  points := [ set_positions (moving_waypoint 7 1) [double_of_int 0];
                              jtp_of_positions [double_of_int 0] ] |} in
  joint_names traj' = getActiveJointModelNames (Collaborators := slider free_space)
  /\ length (points traj') = length [0; 0]
  /\ Forall2 same_but_positions (resize (length [0; 0]) (points traj))
       (points traj').
Proof.
  cbv zeta.
  apply (populate_writes_positions_only (C := slider free_space) one_state_env
           [0; 0] {| joint_names := []; points := [moving_waypoint 7 1] |}
           {| joint_names := ["slide"%string];
              points := [ set_positions (moving_waypoint 7 1) [double_of_int 0];
                          jtp_of_positions [double_of_int 0] ] |} true).
  vm_compute. reflexivity.
Defined.

(** ** The cell of the grid origin *)

(** X20: The origin of the grid lies in the cell (0, 0, 0), for a finite origin
    and a resolution that is a number other than zero. *)
Theorem continuousXYZtoDiscreteXYZ_origin (params_ : SBPLPlanningParams) :
  finite (field_origin_x params_) = true ->
  finite (field_origin_y params_) = true ->
  finite (field_origin_z params_) = true ->
  nonzero_number (field_resolution params_) = true ->
  continuousXYZtoDiscreteXYZ params_ (field_origin_x params_)
    (field_origin_y params_) (field_origin_z params_)
  = Ret (true, (0, 0, 0)).
Proof.
  intros Hx Hy Hz Hres. unfold continuousXYZtoDiscreteXYZ.
  rewrite !dsub_diag by assumption.
  destruct (field_resolution params_) as [s|s| |s m e]; try discriminate;
    reflexivity.
Qed.

Lemma continuousXYZtoDiscreteXYZ_origin_witness :
  continuousXYZtoDiscreteXYZ (slider_params false (dbl 1 0))
    (field_origin_x (slider_params false (dbl 1 0)))
    (field_origin_y (slider_params false (dbl 1 0)))
    (field_origin_z (slider_params false (dbl 1 0)))
  = Ret (true, (0, 0, 0)).
Proof.
  apply (continuousXYZtoDiscreteXYZ_origin (slider_params false (dbl 1 0)));
    reflexivity.
Defined.

(** ** A setup that fails *)

Lemma setup_goal_inl {C : Collaborators} (env env1 : Environment)
    (goal0 : Constraints) (mres code : MoveItErrorCodes)
    (start_joint_values : list double) (ok : bool) :
  setup_goal env goal0 mres start_joint_values = Ret (inl (ok, code, env1)) ->
  env1 = env
  /\ ((code = GOAL_IN_COLLISION
       /\ joint_constraints goal0 <> []
       /\ checkCollision (state_ env) = true)
      \/ (code = mres
          /\ joint_constraints goal0 = []
          /\ position_constraints goal0 = [])).
Proof.
  unfold setup_goal.
  destruct (joint_constraints goal0) as [|jc jcs]; cbn [length Z.of_nat Z.ltb Z.compare].
  - destruct (position_constraints goal0) as [|pc pcs].
    + intros H. inversion H; subst. auto.
    + destruct (target_point_offset pc) as [[tx ty] tz]. intros H.
      apply bind_Ret_inv in H. destruct H as ([ok' cell] & _ & H). discriminate.
  - destruct (checkCollision (state_ env)) eqn:Hc.
    + intros H. inversion H; subst. split; [reflexivity|]. left.
      repeat split. discriminate.
    + intros H. apply bind_Ret_inv in H.
      destruct H as ([[ok' cell] state'] & Hcoord & H).
      apply getEndEffectorCoord_true in Hcoord. subst ok'. cbn [negb] in H.
      destruct (use_joint_snap _); discriminate.
Qed.

(** X15: A setup that returns false, with its cause and what it leaves behind.
    It has replaced the parameters, and it has touched neither the goal
    entry nor the search nor a constraint set.  Either the start state of
    the request collides (collision-in-start, the start entry untouched), or
    the start entry is already stored and the goal is to blame: its joint
    goal collides (collision-in-goal), or it has neither joint nor position
    constraints (the error code left as it was). *)
Theorem setupForMotionPlan_failure {C : Collaborators} (env env' : Environment)
    (mreq : MotionPlanRequest) (mres code : MoveItErrorCodes)
    (params : SBPLPlanningParams) :
  setupForMotionPlan env mreq mres params = Ret (false, code, env') ->
  params_ env' = params
  /\ goal_ env' = goal_ env
  /\ bfs_ env' = bfs_ env
  /\ goal_constraint_set_ env' = goal_constraint_set_ env
  /\ path_constraint_set_ env' = path_constraint_set_ env
  /\ ((code = START_STATE_IN_COLLISION
       /\ checkCollision (request_start_state mreq) = true
       /\ start_ env' = start_ env)
      \/ (checkCollision (request_start_state mreq) = false
          /\ exists goal0 start,
               hd_error (goal_constraints mreq) = Some goal0
               /\ start_ env' = Some start
               /\ angles start
                  = copyJointGroupPositions (request_start_state mreq)
               /\ ((code = GOAL_IN_COLLISION
                    /\ joint_constraints goal0 <> []
                    /\ checkCollision (request_goal_state mreq goal0) = true)
                   \/ (code = mres
                       /\ joint_constraints goal0 = []
                       /\ position_constraints goal0 = [])))).
Proof.
  unfold setupForMotionPlan.
  change (robotStateMsgToRobotState (start_state mreq) getCurrentState)
    with (request_start_state mreq).
  cbv zeta. cbn [set_request params_ state_].
  destruct (checkCollision (request_start_state mreq)) eqn:Hfree.
  { intros H. inversion H; subst.
    cbn [params_ goal_ bfs_ goal_constraint_set_ path_constraint_set_ start_].
    repeat (split; [reflexivity|]). left. repeat split. }
  destruct (fold_addMotionPrimitive_members (prims params)
              (set_request env params (request_start_state mreq)))
    as (F1 & F2 & F3 & F4 & F5 & F6 & F7 & F8).
  cbn [set_request params_ state_ state_ID_to_coord_table_ start_ goal_ bfs_
       goal_constraint_set_ path_constraint_set_] in F1, F2, F3, F4, F5, F6, F7, F8.
  remember (fold_left addMotionPrimitive (prims params)
              (set_request env params (request_start_state mreq))) as e1 eqn:He1.
  clear He1.
  rewrite F1, F2. intros H.
  apply bind_Ret_inv in H. destruct H as ([[ok1 start_xyz] st1] & Hs & H).
  apply getEndEffectorCoord_inv in Hs. destruct Hs as (-> & -> & _).
  cbn [negb] in H.
  apply bind_Ret_inv in H. destruct H as (goal0 & Hg0 & H).
  apply bind_Ret_inv in H. destruct H as (r & Hr & H).
  destruct r as [[[ok1 code1] env1] | [[[gjv gc] gxyz] env2]].
  2: { destruct (_ || _); discriminate. }
  inversion H; subst ok1 code1 env1. clear H.
  apply setup_goal_inl in Hr. destruct Hr as (-> & Hcause).
  cbn [set_state set_request set_start params_ state_ state_ID_to_coord_table_
       start_ goal_ bfs_ goal_constraint_set_ path_constraint_set_ addHashEntry
       fst snd] in Hcause |- *.
  rewrite ?F1, ?F2 in Hcause.
  repeat (split; [assumption|]). right. split; [reflexivity|].
  exists goal0. eexists. split.
  { change 0 with (Z.of_nat 0) in Hg0. rewrite index_nth_error in Hg0.
    destruct (goal_constraints mreq) as [|g gs]; cbn in Hg0 |- *;
      [discriminate | congruence]. }
  split; [reflexivity|]. split; [reflexivity|]. exact Hcause.
Qed.

Lemma setupForMotionPlan_failure_witness :
  let obstacle := between (dbl 7 (-1)) (dbl 9 (-1)) in
  let params := slider_params false (dbl 1 0) in
  let mreq := slider_request obstacle (double_of_int 0) (double_of_int 4) in
  match setupForMotionPlan (C := slider obstacle) (fresh_env params) mreq
          (other_error_code 0) params with
  | Ret (false, code, env') =>
      params_ env' = params
      /\ goal_ env' = goal_ (fresh_env (C := slider obstacle) params)
      /\ bfs_ env' = bfs_ (fresh_env (C := slider obstacle) params)
      /\ goal_constraint_set_ env'
         = goal_constraint_set_ (fresh_env (C := slider obstacle) params)
      /\ path_constraint_set_ env'
         = path_constraint_set_ (fresh_env (C := slider obstacle) params)
      /\ ((code = START_STATE_IN_COLLISION
           /\ checkCollision (request_start_state mreq) = true
           /\ start_ env' = start_ (fresh_env (C := slider obstacle) params))
          \/ (checkCollision (request_start_state mreq) = false
              /\ exists goal0 start,
                   hd_error (goal_constraints mreq) = Some goal0
                   /\ start_ env' = Some start
                   /\ angles start
                      = copyJointGroupPositions (request_start_state mreq)
                   /\ ((code = GOAL_IN_COLLISION
                        /\ joint_constraints goal0 <> []
                        /\ checkCollision (request_goal_state mreq goal0) = true)
                       \/ (code = other_error_code 0
                           /\ joint_constraints goal0 = []
                           /\ position_constraints goal0 = []))))
  | _ => False
  end.
Proof.
  cbv zeta.
  assert (Hok :
    match setupForMotionPlan (C := slider (between (dbl 7 (-1)) (dbl 9 (-1))))
            (fresh_env (slider_params false (dbl 1 0)))
            (slider_request (between (dbl 7 (-1)) (dbl 9 (-1)))
               (double_of_int 0) (double_of_int 4))
            (other_error_code 0) (slider_params false (dbl 1 0)) with
    | Ret (false, GOAL_IN_COLLISION, _) => True
    | _ => False
    end) by (vm_compute; exact I).
  destruct (setupForMotionPlan _ _ _ _) as [[[[|] code] env']| |] eqn:H;
    try contradiction.
  apply (setupForMotionPlan_failure
           (C := slider (between (dbl 7 (-1)) (dbl 9 (-1)))) _ _ _ _ _ _ H).
Defined.

(** ** A valid path whose shortcut is not valid *)

Lemma checks_return_In {C : Collaborators} (env : Environment)
    (pts : list JointTrajectoryPoint) :
  checks_return env pts = true ->
  forall a b, In a pts -> In b pts ->
    exists r, interpolateAndCollisionCheck env (positions a) (positions b) = Ret r.
Proof.
  unfold checks_return. intros H a b Ha Hb.
  rewrite forallb_forall in H. specialize (H a Ha).
  rewrite forallb_forall in H. specialize (H b Hb).
  destruct (interpolateAndCollisionCheck env (positions a) (positions b)) as [r| |];
    [eauto | discriminate | discriminate].
Qed.

Lemma motions_valid_nth {C : Collaborators} (env : Environment)
    (pts : list JointTrajectoryPoint) :
  motions_valid env pts = true ->
  forall i a b,
    nth_error pts i = Some a -> nth_error pts (S i) = Some b ->
    isMotionValid env a b = true.
Proof.
  induction pts as [|p [|q rest] IH]; intros H i a b Ha Hb.
  - destruct i; discriminate.
  - destruct i as [|i]; [discriminate | destruct i; discriminate].
  - cbn [motions_valid] in H. apply andb_true_iff in H. destruct H as [Hpq Hrest].
    destruct i as [|i].
    + cbn [nth_error] in Ha, Hb. inversion Ha; inversion Hb; subst. exact Hpq.
    + apply (IH Hrest i); assumption.
Qed.

(** C1 (the code departs from the claim): the path around the bar is a valid
    path, every motion between adjacent waypoints passes the validity check.
    The motion from (0,0) to (4,0) is the last good span when the check of
    (0,0) to (4,4) fails; the branch that copies a span of several waypoints
    pushes its interpolated configurations (1,0), (2,0), (3,0) and not its
    end waypoint (4,0).  The output goes from (3,0) straight to (4,4), and
    that motion does not pass the validity check: its sample (3.5, 2) lies in
    the bar. *)
Theorem attemptShortcut_valid_path_invalid_output :
  let env := fresh_env (C := planar bar) (slider_params false (dbl 1 0)) in
  let traj_out :=
    path2 [(0, 0); (1, 0); (2, 0); (3, 0); (4, 4); (3, 4); (2, 4); (1, 4); (0, 4)] in
  valid_path env around_the_bar
  /\ motions_valid env (points around_the_bar) = true
  /\ (forall fuel, (6 <= fuel)%nat ->
        attemptShortcut env around_the_bar fuel = Ret traj_out)
  /\ ~ In (waypoint2 4 0) (points traj_out)
  /\ isMotionValid env (waypoint2 3 0) (waypoint2 4 4) = false
  /\ checkCollision (Collaborators := planar bar)
       [dbl 7 (-1); double_of_int 2] = true
  /\ motions_valid env (points traj_out) = false.
Proof.
  cbv zeta.
  assert (Hvalid : motions_valid
                     (fresh_env (C := planar bar) (slider_params false (dbl 1 0)))
                     (points around_the_bar) = true) by (vm_compute; reflexivity).
  split; [|split; [|split; [|split; [|split; [|split]]]]].
  - split; [vm_compute; lia|]. split; [vm_compute; reflexivity|]. split.
    + apply checks_return_In. vm_compute. reflexivity.
    + apply motions_valid_nth. exact Hvalid.
  - exact Hvalid.
  - intros fuel Hfuel.
    apply (attemptShortcut_more_fuel
             (fresh_env (C := planar bar) (slider_params false (dbl 1 0)))
             around_the_bar _ 6 fuel); [|exact Hfuel].
    vm_compute. reflexivity.
  - intros H. vm_compute in H.
    repeat (destruct H as [H|H]; [discriminate H|]). exact H.
  - vm_compute. reflexivity.
  - vm_compute. reflexivity.
  - vm_compute. reflexivity.
Qed.

(** ** Poses outside the grid *)

(** C9 (the code departs from the claim): the setup has a branch for a bad
    start pose (invalid-robot-state) and one for a bad goal pose
    (invalid-goal), but [continuousXYZtoDiscreteXYZ] leaves its range check
    as a TODO and always returns true, so for no robot does
    [getEndEffectorCoord] return false.  With the grid starting at the
    origin, a start pose at x = -1 and a goal pose at x = -2 lie before the
    grid; they are discretized to the cells (-64, 0, 0) and (-128, 0, 0), the
    setup returns true with the error code untouched, and the search is run
    from the goal cell outside the grid. *)
Theorem setupForMotionPlan_out_of_range_pose_accepted :
  let params := slider_params true (dbl 1 0) in
  (forall (C : Collaborators) params_ state state' angles ok cell,
     getEndEffectorCoord params_ state angles = Ret (ok, cell, state') ->
     ok = true)
  /\ getEndEffectorCoord (C := slider free_space) params
       [S754_zero false] [double_of_int (-1)]
     = Ret (true, (-64, 0, 0), [double_of_int (-1)])
  /\ getEndEffectorCoord (C := slider free_space) params
       [S754_zero false] [double_of_int (-2)]
     = Ret (true, (-128, 0, 0), [double_of_int (-2)])
  /\ cell_not_negative (-64, 0, 0) = false
  /\ cell_not_negative (-128, 0, 0) = false
  /\ match setupForMotionPlan (C := slider free_space) (fresh_env params)
             (slider_request free_space (double_of_int (-1)) (double_of_int (-2)))
             (other_error_code 0) params with
     | Ret (ok, code, env') =>
         ok = true
         /\ code = other_error_code 0
         /\ option_map xyz (start_ env') = Some (-64, 0, 0)
         /\ option_map xyz (goal_ env') = Some (-128, 0, 0)
         /\ bfs_ env'
            = Some (BFS_3D_run (Collaborators := slider free_space) params
                      (-128, 0, 0))
     | _ => False
     end.
Proof.
  cbv zeta. split.
  { intros C params_ state state' angles ok cell H.
    eapply getEndEffectorCoord_true. exact H. }
  split; [vm_compute; reflexivity|].
  split; [vm_compute; reflexivity|].
  split; [reflexivity|]. split; [reflexivity|].
  vm_compute. repeat split.
Qed.
